(** * Hash-linked treatment ledger ([blockchain.py]): model and properties

    The ledger keeps medical-record blocks in one JSON artifact; every
    block carries the SHA-256 digest of its own fields and the digest of
    its predecessor.  This file embeds the ledger functions of
    [blockchain.py] and states the properties the design document
    attributes to them. *)

From Stdlib Require Import ZArith NArith List String Ascii Lia Bool.
From Stdlib Require Import DecimalString DecimalZ DecimalNat.
From stdpp Require Import base option list gmap strings finite.

Local Open Scope string_scope.
Local Open Scope list_scope.

(** ** SHA-256 ([hashlib.sha256], FIPS 180-4)

    Words are 32-bit naturals in [N]; every addition is reduced modulo
    [2^32] explicitly. *)
Module SHA256.
Local Open Scope N_scope.

Definition wrap (x : N) : N := x mod 2 ^ 32.
Definition add32 (x y : N) : N := wrap (x + y).
Definition rotr (n x : N) : N :=
  N.lor (N.shiftr x n) (wrap (N.shiftl x (32 - n))).
Definition not32 (x : N) : N := N.lxor x (2 ^ 32 - 1).

Definition ch (x y z : N) : N := N.lxor (N.land x y) (N.land (not32 x) z).
Definition maj (x y z : N) : N :=
  N.lxor (N.lxor (N.land x y) (N.land x z)) (N.land y z).
Definition bsig0 (x : N) : N := N.lxor (N.lxor (rotr 2 x) (rotr 13 x)) (rotr 22 x).
Definition bsig1 (x : N) : N := N.lxor (N.lxor (rotr 6 x) (rotr 11 x)) (rotr 25 x).
Definition ssig0 (x : N) : N := N.lxor (N.lxor (rotr 7 x) (rotr 18 x)) (N.shiftr x 3).
Definition ssig1 (x : N) : N := N.lxor (N.lxor (rotr 17 x) (rotr 19 x)) (N.shiftr x 10).

(** The round constants and the initial state are the first 32 bits of
    the fractional parts of the cube roots (square roots) of the first
    64 (8) primes; they are computed here rather than tabulated. *)
Definition is_prime (n : nat) : bool :=
  (2 <=? N.of_nat n) &&
  forallb (fun d => negb (N.of_nat n mod N.of_nat d =? 0)) (seq 2 (n - 2)).

Definition first_primes (k : nat) : list N :=
  map N.of_nat (firstn k (filter is_prime (seq 2 320))).

(** Greatest [r] below [2^bits] (added to the start value) with
    [r ^ k <= n], found one bit at a time. *)
Fixpoint int_root (k n : N) (bits : nat) (r : N) : N :=
  match bits with
  | O => r
  | S b =>
      let r' := r + 2 ^ N.of_nat b in
      int_root k n b (if r' ^ k <=? n then r' else r)
  end.

Definition frac_root (k p : N) : N := wrap (int_root k (p * 2 ^ (32 * k)) 36 0).

Definition K : list N := Eval vm_compute in map (frac_root 3) (first_primes 64).
Definition H0 : list N := Eval vm_compute in map (frac_root 2) (first_primes 8).

(** Padding: a [0x80] byte, zero bytes up to 56 modulo 64, then the bit
    length as a 64-bit big-endian integer. *)
Definition be_bytes (count : nat) (x : N) : list N :=
  map (fun i => N.shiftr x (8 * N.of_nat i) mod 256) (rev (seq 0 count)).

Definition pad (msg : list N) : list N :=
  let len := length msg in
  let zeros := ((119 - len mod 64) mod 64)%nat in
  msg ++ [128] ++ repeat 0 zeros ++ be_bytes 8 (8 * N.of_nat len).

Definition be_word (bs : list N) : N :=
  fold_left (fun acc b => acc * 256 + b) bs 0.

Fixpoint chunks (fuel size : nat) (l : list N) : list (list N) :=
  match fuel, l with
  | O, _ | _, [] => []
  | S fuel', _ => firstn size l :: chunks fuel' size (skipn size l)
  end.

Definition words_of (bs : list N) : list N := map be_word (chunks (length bs) 4 bs).

(** One round: the working variables [a..h] and the sliding window of
    the next sixteen schedule words. *)
Definition round (st : list N * list N) (k : N) : list N * list N :=
  match st with
  | ([a; b; c; d; e; f; g; h], (w0 :: _) as win) =>
      let t1 := add32 (add32 (add32 (add32 h (bsig1 e)) (ch e f g)) k) w0 in
      let t2 := add32 (bsig0 a) (maj a b c) in
      let w16 := add32 (add32 (add32 (ssig1 (nth 14 win 0)) (nth 9 win 0))
                              (ssig0 (nth 1 win 0))) w0 in
      ([add32 t1 t2; a; b; c; add32 d t1; e; f; g], tl win ++ [w16])
  | _ => st
  end.

Definition compress (hs : list N) (blk : list N) : list N :=
  let '(vars, _) := fold_left round K (hs, words_of blk) in
  map (fun p => add32 (fst p) (snd p)) (combine hs vars).

Definition digest (msg : list N) : list N :=
  let padded := pad msg in
  flat_map (be_bytes 4) (fold_left compress (chunks (length padded) 64 padded) H0).

Definition hex_digit (d : N) : ascii :=
  if d <? 10 then ascii_of_N (48 + d) else ascii_of_N (87 + d).

Fixpoint hex (bs : list N) : string :=
  match bs with
  | [] => EmptyString
  | b :: bs' => String (hex_digit (b / 16)) (String (hex_digit (b mod 16)) (hex bs'))
  end.

(** [str.encode()]: a Python string is represented by the bytes of its
    UTF-8 encoding, so encoding lists the bytes. *)
Fixpoint encode (s : string) : list N :=
  match s with
  | EmptyString => []
  | String c s' => N_of_ascii c :: encode s'
  end.

Definition hexdigest (s : string) : string := hex (digest (encode s)).

End SHA256.

(** ** Data model

    A block is the dictionary built in [create_genesis_block] and
    [add_record].  [index] is a Python [int]; [timestamp] is the float
    returned by [time.time()], kept as the text [str] gives for it (the
    only thing the ledger ever does with the float is to interpolate it
    into the hashed string, and the JSON round trip preserves that
    text).  The genesis block has no ["date"] key. *)
Record block := Block {
  index : Z;
  patient_id : string;
  doctor_id : string;
  treatment : string;
  timestamp : string;
  time_readable : string;
  date : option string;
  previous_hash : string;
  hash : string;
  is_valid : bool;
  block_type : string
}.

#[global] Instance block_inhabited : Inhabited block :=
  populate (Block 0 "" "" "" "" "" None "" "" false "").

(** The keys of a block and the JSON value stored under each. *)
Inductive field :=
  | F_index | F_patient_id | F_doctor_id | F_treatment | F_timestamp
  | F_time_readable | F_date | F_previous_hash | F_hash | F_is_valid
  | F_block_type.

Inductive value :=
  | VInt (z : Z) | VFloat (repr : string) | VStr (s : string)
  | VBool (b : bool) | VAbsent.

Definition get (f : field) (b : block) : value :=
  match f with
  | F_index => VInt (index b)
  | F_patient_id => VStr (patient_id b)
  | F_doctor_id => VStr (doctor_id b)
  | F_treatment => VStr (treatment b)
  | F_timestamp => VFloat (timestamp b)
  | F_time_readable => VStr (time_readable b)
  | F_date => match date b with Some d => VStr d | None => VAbsent end
  | F_previous_hash => VStr (previous_hash b)
  | F_hash => VStr (hash b)
  | F_is_valid => VBool (is_valid b)
  | F_block_type => VStr (block_type b)
  end.


(** [b'] is [b] with the value of exactly the field [f] changed.  Both
    are blocks of the record type, so the new value has the type of the
    old one: an integer under [index], a float under [timestamp], a
    boolean under [is_valid], a string or no entry under [date], and a
    string under every other key.  An edit that gives a key a value of
    another type is not of this kind; the loops on JSON values further
    down speak of those. *)
Definition changed_only (f : field) (b b' : block) : Prop :=
  get f b <> get f b' /\ forall g, g <> f -> get g b = get g b'.

(** ** Hasher *)

(** [str(n)] for a Python [int]. *)
Definition str_int (z : Z) : string := NilEmpty.string_of_int (Z.to_int z).

(** ["0" * 64] *)
Definition zeros64 : string :=
  Eval vm_compute in fold_right String.append "" (repeat "0" 64).

(** [create_hash(data)]: [hashlib.sha256(data.encode()).hexdigest()]. *)
Definition create_hash (data : string) : string := SHA256.hexdigest data.

(** The f-string
    [f"{index}|{patient_id}|{doctor_id}|{treatment}|{previous_hash}|{timestamp}"]. *)
Definition hash_input (idx : Z) (pid did trt prev ts : string) : string :=
  str_int idx +:+ "|" +:+ pid +:+ "|" +:+ did +:+ "|" +:+ trt +:+ "|"
  +:+ prev +:+ "|" +:+ ts.

(** The same string read off the fields of a stored block, as
    [verify_chain] and [detect_tampering] build it. *)
Definition block_data (b : block) : string :=
  hash_input (index b) (patient_id b) (doctor_id b) (treatment b)
             (previous_hash b) (timestamp b).

(** ** The world: files, clock, audit log and I/O faults *)

Definition BLOCKCHAIN_FILE : string := "blockchain_data.json".
Definition BACKUP_FILE : string := "blockchain_backup.json".

(** Contents of a chain artifact.  [JsonText c] is a text that
    [json.load] decodes to the list of blocks [c], in particular the
    text [json.dump(c, f, indent=4)] writes; [OtherText s] is a text [s]
    that [json.load] rejects. *)
Inductive file_data :=
  | JsonText (c : list block)
  | OtherText (s : string).

(** One reading of the system clock with the three renderings the code
    takes of it: [str(t)], [time.ctime(t)] and
    [strftime("%Y-%m-%d %H:%M:%S")]. *)
Record pytime := PyTime { t_repr : string; t_ctime : string; t_date : string }.

(** What happens to the next file operation: it goes through, it fails
    before touching the file, or (a write) it fails after leaving the
    text [partial] behind. *)
Inductive fault := Pass | Deny | Cut (partial : string).

(** [log] holds the lines of [LOG_FILE], a file of its own that only
    [log_operation] touches. *)
Record world := World {
  files : gmap string file_data;
  log : list string;
  clock : nat -> pytime;
  ticks : nat;
  faults : list fault
}.

Definition set_files (fs : gmap string file_data) (w : world) : world :=
  World fs (log w) (clock w) (ticks w) (faults w).
Definition set_log (l : list string) (w : world) : world :=
  World (files w) l (clock w) (ticks w) (faults w).
Definition set_ticks (n : nat) (w : world) : world :=
  World (files w) (log w) (clock w) n (faults w).
Definition set_faults (fl : list fault) (w : world) : world :=
  World (files w) (log w) (clock w) (ticks w) fl.

(** ** Computations that read and write the world and may raise *)

Inductive exn := OSError | JSONDecodeError | IndexError.

Inductive outcome (A : Type) :=
  | Ok (a : A)
  | Raise (e : exn).
Arguments Ok {A} a.
Arguments Raise {A} e.

Definition IO (A : Type) : Type := world -> outcome A * world.

Definition ret {A} (a : A) : IO A := fun w => (Ok a, w).
Definition raise {A} (e : exn) : IO A := fun w => (Raise e, w).
Definition bind {A B} (m : IO A) (k : A -> IO B) : IO B :=
  fun w => match m w with
           | (Ok a, w') => k a w'
           | (Raise e, w') => (Raise e, w')
           end.
(** [try: m  except Exception: handler] *)
Definition try_except {A} (m : IO A) (handler : exn -> IO A) : IO A :=
  fun w => match m w with
           | (Ok a, w') => (Ok a, w')
           | (Raise e, w') => handler e w'
           end.

Declare Scope io_scope.
Delimit Scope io_scope with io.
Notation "x <- m ;; k" := (bind m (fun x => k))
  (at level 100, m at next level, right associativity) : io_scope.
Notation "m ;;; k" := (bind m (fun _ => k))
  (at level 100, right associativity) : io_scope.
Local Open Scope io_scope.

(** The fault that decides the next file operation. *)
Definition next_fault (w : world) : fault * world :=
  match faults w with
  | [] => (Pass, w)
  | f :: fl => (f, set_faults fl w)
  end.

(** [os.path.exists(path)] *)
Definition exists_file (path : string) : IO bool :=
  fun w => (Ok (bool_decide (is_Some (files w !! path))), w).

(** [with open(path, "r") as f: f.read()] *)
Definition read_file (path : string) : IO file_data :=
  fun w => let (f, w1) := next_fault w in
           match f, files w1 !! path with
           | Pass, Some d => (Ok d, w1)
           | _, _ => (Raise OSError, w1)
           end.

(** [with open(path, "w") as f: f.write(d)] *)
Definition write_file (path : string) (d : file_data) : IO unit :=
  fun w => let (f, w1) := next_fault w in
           match f with
           | Pass => (Ok tt, set_files (<[path := d]> (files w1)) w1)
           | Deny => (Raise OSError, w1)
           | Cut partial => (Raise OSError,
                          set_files (<[path := OtherText partial]> (files w1)) w1)
           end.

(** [with open(LOG_FILE, "a") as f: f.write(line)] *)
Definition append_log (line : string) : IO unit :=
  fun w => let (f, w1) := next_fault w in
           match f with
           | Pass => (Ok tt, set_log (log w1 ++ [line]) w1)
           | Deny => (Raise OSError, w1)
           | Cut partial => (Raise OSError, set_log (log w1 ++ [partial]) w1)
           end.

(** [time.time()] and [datetime.now()] *)
Definition time_time : IO pytime :=
  fun w => (Ok (clock w (ticks w)), set_ticks (S (ticks w)) w).

Definition json_dump (c : list block) : file_data := JsonText c.

Definition json_load (d : file_data) : IO (list block) :=
  match d with
  | JsonText c => ret c
  | OtherText _ => raise JSONDecodeError
  end.

(** ** The ledger functions *)

(** [log_operation(message)] *)
Definition log_operation (message : string) : IO unit :=
  try_except
    (now <- time_time ;;
     let log_entry := "[" +:+ t_date now +:+ "] " +:+ message in
     append_log log_entry)
    (fun _ => ret tt).

(** [load_chain()] *)
Definition load_chain : IO (list block) :=
  present <- exists_file BLOCKCHAIN_FILE ;;
  if negb present then ret []
  else try_except
         (d <- read_file BLOCKCHAIN_FILE ;;
          chain <- json_load d ;;
          ret chain)
         (fun _ => ret []).

(** [save_chain(chain)] *)
Definition save_chain (chain : list block) : IO bool :=
  try_except
    (present <- exists_file BLOCKCHAIN_FILE ;;
     (if present
      then old_data <- read_file BLOCKCHAIN_FILE ;;
           write_file BACKUP_FILE old_data
      else ret tt) ;;;
     write_file BLOCKCHAIN_FILE (json_dump chain) ;;;
     log_operation ("Blockchain saved with "
                    +:+ str_int (Z.of_nat (length chain)) +:+ " blocks") ;;;
     ret true)
    (fun _ => ret false).

(** [create_genesis_block()] *)
Definition create_genesis_block : IO block :=
  now <- time_time ;;
  ret {| index := 0;
         patient_id := "GENESIS";
         doctor_id := "SYSTEM";
         treatment := "Blockchain initialized";
         timestamp := t_repr now;
         time_readable := t_ctime now;
         date := None;
         previous_hash := zeros64;
         hash := create_hash ("0|GENESIS|SYSTEM|init|" +:+ zeros64 +:+ "|"
                              +:+ t_repr now);
         is_valid := true;
         block_type := "GENESIS" |}.

(** [chain[-1]] *)
Definition tail_block (chain : list block) : IO block :=
  match last chain with
  | Some b => ret b
  | None => raise IndexError
  end.

(** [add_record(patient_id, doctor_id, treatment)] *)
Definition add_record (pid did trt : string) : IO string :=
  chain <- load_chain ;;
  chain <- (if (length chain =? 0)%nat
            then genesis <- create_genesis_block ;;
                 ret (chain ++ [genesis])
            else ret chain) ;;
  tail <- tail_block chain ;;
  let prev := hash tail in
  now <- time_time ;;
  let block_index := Z.of_nat (length chain) in
  let data := hash_input block_index pid did trt prev (t_repr now) in
  let record_hash := create_hash data in
  let blk := {| index := block_index;
                patient_id := pid;
                doctor_id := did;
                treatment := trt;
                timestamp := t_repr now;
                time_readable := t_ctime now;
                date := Some (t_date now);
                previous_hash := prev;
                hash := record_hash;
                is_valid := true;
                block_type := "MEDICAL_RECORD" |} in
  let chain := chain ++ [blk] in
  saved <- save_chain chain ;;
  (if saved
   then log_operation ("Block added - Index: " +:+ str_int block_index
                       +:+ ", Patient: " +:+ pid +:+ ", Doctor: " +:+ did)
   else ret tt) ;;;
  ret record_hash.

(** Where [verify_chain] returns: through the empty-chain test, the
    genesis test, one of the two tests on block [i], or at the end. *)
Inductive verdict :=
  | Empty_valid
  | Genesis_invalid
  | Prev_mismatch (i : nat)
  | Hash_mismatch (i : nat)
  | All_valid.

Definition verdict_bool (v : verdict) : bool :=
  match v with
  | Empty_valid | All_valid => true
  | _ => false
  end.

(** The body of [for i in range(1, len(chain))] in [verify_chain];
    [range] stays inside the chain, so [chain !!! i] is [chain[i]]. *)
Fixpoint verify_blocks (chain : list block) (range : list nat) : verdict :=
  match range with
  | [] => All_valid
  | i :: range' =>
      let current_block := chain !!! i in
      let previous_block := chain !!! (i - 1)%nat in
      if negb (String.eqb (previous_hash current_block) (hash previous_block))
      then Prev_mismatch i
      else
        let data := block_data current_block in
        let recalculated_hash := create_hash data in
        if negb (String.eqb recalculated_hash (hash current_block))
        then Hash_mismatch i
        else verify_blocks chain range'
  end.

Definition check_chain (chain : list block) : verdict :=
  match chain with
  | [] => Empty_valid
  | genesis :: _ =>
      if negb (String.eqb (previous_hash genesis) zeros64)
      then Genesis_invalid
      else verify_blocks chain (seq 1 (length chain - 1))
  end.

(** [verify_chain()] *)
Definition verify_chain : IO bool :=
  chain <- load_chain ;;
  match check_chain chain with
  | All_valid =>
      log_operation ("Blockchain verified - "
                     +:+ str_int (Z.of_nat (length chain)) +:+ " blocks OK") ;;;
      ret true
  | v => ret (verdict_bool v)
  end.

(** An entry of the list [detect_tampering] returns. *)
Record report := Report {
  block_index : nat;
  reason : string;
  expected : string;
  actual : string
}.

(** The body of the loop of [detect_tampering]. *)
Definition detect_step (chain : list block) (tampered_blocks : list report)
    (i : nat) : list report :=
  let current_block := chain !!! i in
  let previous_block := chain !!! (i - 1)%nat in
  let data := block_data current_block in
  let recalculated_hash := create_hash data in
  let tampered_blocks :=
    if negb (String.eqb recalculated_hash (hash current_block))
    then tampered_blocks ++
         [Report i "Hash mismatch" recalculated_hash (hash current_block)]
    else tampered_blocks in
  if negb (String.eqb (previous_hash current_block) (hash previous_block))
  then tampered_blocks ++
       [Report i "Previous hash mismatch" (hash previous_block)
               (previous_hash current_block)]
  else tampered_blocks.

Definition detect_blocks (chain : list block) : list report :=
  fold_left (detect_step chain) (seq 1 (length chain - 1)) [].

(** [detect_tampering()] *)
Definition detect_tampering : IO (list report) :=
  chain <- load_chain ;;
  ret (detect_blocks chain).

(** [l[start:]] for a Python list: a negative start counts from the
    end, and the start is clamped to the list. *)
Definition slice_from {A} (start : Z) (l : list A) : list A :=
  let n := Z.of_nat (length l) in
  let s := if (start <? 0)%Z then Z.max 0 (start + n) else Z.min start n in
  drop (Z.to_nat s) l.

(** [get_recent_records(count)] *)
Definition get_recent_records (count : Z) : IO (list block) :=
  chain <- load_chain ;;
  ret (if (Z.of_nat (length chain) >=? count)%Z
       then slice_from (- count) chain
       else chain).

(** [rollback_to_backup()] *)
Definition rollback_to_backup : IO bool :=
  present <- exists_file BACKUP_FILE ;;
  if negb present then ret false
  else try_except
         (backup_data <- read_file BACKUP_FILE ;;
          write_file BLOCKCHAIN_FILE backup_data ;;;
          log_operation "Blockchain restored from backup" ;;;
          ret true)
         (fun _ => ret false).

(** Successive calls of [add_record], one per triple, as in the demo at
    the end of the module; the hashes returned, in call order. *)
Fixpoint add_records (rs : list (string * string * string)) : IO (list string) :=
  match rs with
  | [] => ret []
  | (pid, did, trt) :: rs' =>
      h <- add_record pid did trt ;;
      hs <- add_records rs' ;;
      ret (h :: hs)
  end.

(** ** Queries, statistics and export *)

(** The loop of [get_record_by_hash]: the first block whose hash is
    [record_hash], [None] when the loop ends without one. *)
Fixpoint first_with_hash (record_hash : string) (chain : list block)
    : option block :=
  match chain with
  | [] => None
  | blk :: chain' =>
      if String.eqb (hash blk) record_hash then Some blk
      else first_with_hash record_hash chain'
  end.

(** [get_record_by_hash(record_hash)] *)
Definition get_record_by_hash (record_hash : string) : IO (option block) :=
  chain <- load_chain ;;
  ret (first_with_hash record_hash chain).

(** [get_patient_records(patient_id)] *)
Definition get_patient_records (pid : string) : IO (list block) :=
  chain <- load_chain ;;
  let records := filter (fun blk => patient_id blk = pid) chain in
  ret records.

(** [get_doctor_records(doctor_id)] *)
Definition get_doctor_records (did : string) : IO (list block) :=
  chain <- load_chain ;;
  let records := filter (fun blk => doctor_id blk = did) chain in
  ret records.

(** [os.path.getsize(path) / 1024]: the artifact texts carry no byte
    count, so the value is kept as the text that was measured. *)
Inductive kilobytes :=
  | Size_of (d : file_data)
  | Zero_size.

(** [os.path.getsize(path)], a file operation that can fail. *)
Definition getsize (path : string) : IO file_data :=
  fun w => let (f, w1) := next_fault w in
           match f, files w1 !! path with
           | Pass, Some d => (Ok d, w1)
           | _, _ => (Raise OSError, w1)
           end.

(** The dictionary [get_chain_stats] returns.  The key
    ["chain_size_kb"] is absent from the dictionary built for an empty
    chain; the other keys are always there. *)
Record stats := Stats {
  total_blocks : nat;
  stats_is_valid : bool;
  first_block : option string;
  last_block : option string;
  total_patients : nat;
  total_doctors : nat;
  stats_genesis_block : option block;
  chain_size_kb : option kilobytes
}.

(** The loop of [get_chain_stats] that collects the identifiers of the
    blocks other than the genesis block. *)
Definition collect_ids (acc : gset string * gset string) (blk : block)
    : gset string * gset string :=
  let (patients, doctors) := acc in
  if negb (String.eqb (block_type blk) "GENESIS")
  then ({[patient_id blk]} ∪ patients, {[doctor_id blk]} ∪ doctors)
  else (patients, doctors).

(** [get_chain_stats()] *)
Definition get_chain_stats : IO stats :=
  chain <- load_chain ;;
  match chain with
  | [] =>
      ret {| total_blocks := 0;
             stats_is_valid := true;
             first_block := None;
             last_block := None;
             total_patients := 0;
             total_doctors := 0;
             stats_genesis_block := None;
             chain_size_kb := None |}
  | _ =>
      let (patients, doctors) := fold_left collect_ids chain (∅, ∅) in
      valid <- verify_chain ;;
      present <- exists_file BLOCKCHAIN_FILE ;;
      kb <- (if present
             then d <- getsize BLOCKCHAIN_FILE ;; ret (Size_of d)
             else ret Zero_size) ;;
      ret {| total_blocks := length chain;
             stats_is_valid := valid;
             first_block := time_readable <$> head chain;
             last_block := time_readable <$> last chain;
             total_patients := size patients;
             total_doctors := size doctors;
             stats_genesis_block := head chain;
             chain_size_kb := Some kb |}
  end.

(** A subscript [stats[key]] of a key the dictionary does not have. *)
Inductive key_error := KeyError (key : string).

(** [print_chain_stats()]: the lines printed are left out; the function
    subscripts every key of the dictionary, the last one being
    ["chain_size_kb"], and ends there when the key is missing. *)
Definition print_chain_stats : IO (key_error + unit) :=
  st <- get_chain_stats ;;
  match chain_size_kb st with
  | Some _ => ret (inr tt)
  | None => ret (inl (KeyError "chain_size_kb"))
  end.

(** [export_chain(filepath)] *)
Definition export_chain (filepath : string) : IO bool :=
  chain <- load_chain ;;
  try_except
    (write_file filepath (json_dump chain) ;;;
     ret true)
    (fun _ => ret false).

(** ** The upload filter of the web layer ([app.py]) *)

Definition ALLOWED_EXTENSIONS : list string :=
  ["png"; "jpg"; "jpeg"; "gif"; "bmp"].

(** ['.' in filename] *)
Fixpoint has_dot (s : string) : bool :=
  match s with
  | EmptyString => false
  | String c s' => Ascii.eqb c "." || has_dot s'
  end.

(** [filename.rsplit('.', 1)[1]]: the text after the last dot, for a
    name that has one. *)
Fixpoint after_last_dot (s : string) : option string :=
  match s with
  | EmptyString => None
  | String c s' =>
      match after_last_dot s' with
      | Some ext => Some ext
      | None => if Ascii.eqb c "." then Some s' else None
      end
  end.

(** [str.lower()] on the bytes of the UTF-8 encoding: the letters [A-Z]
    become [a-z].  The only characters outside ASCII whose lower case
    holds an ASCII byte are U+0130 and U+212A, and neither lower case is
    a word of letters other than [k], so membership in
    [ALLOWED_EXTENSIONS] is the same as for Python's [lower]. *)
Definition lower_ascii (c : ascii) : ascii :=
  let n := N_of_ascii c in
  if ((65 <=? n) && (n <=? 90))%N then ascii_of_N (n + 32) else c.

Fixpoint lower (s : string) : string :=
  match s with
  | EmptyString => EmptyString
  | String c s' => String (lower_ascii c) (lower s')
  end.

(** [allowed_file(filename)] *)
Definition allowed_file (filename : string) : bool :=
  has_dot filename &&
  match after_last_dot filename with
  | Some ext => bool_decide (lower ext ∈ ALLOWED_EXTENSIONS)
  | None => false
  end.

(** ** The checks on what [json.load] returns

    [json.load] checks no types: after an edit of the artifact a key
    can hold a value of another type than the one [add_record] stored
    under it.  [jvalue] are the values an edit can put under a key:
    strings, integers, booleans and [null].  Floats, arrays and objects
    are left out, so the timestamp keeps its float, as the text [str]
    gives for it.  On blocks of these values the two loops are the
    ones above, with Python's [str], [!=] and slicing in the place of
    their instances at the types of [block]. *)
Inductive jvalue :=
  | JStr (s : string)
  | JInt (z : Z)
  | JBool (b : bool)
  | JNull.

Record raw_block := Raw {
  j_index : jvalue;
  j_patient_id : jvalue;
  j_doctor_id : jvalue;
  j_treatment : jvalue;
  j_timestamp : string;
  j_time_readable : jvalue;
  j_date : option jvalue;
  j_previous_hash : jvalue;
  j_hash : jvalue;
  j_is_valid : jvalue;
  j_block_type : jvalue
}.

(** The block [json.load] returns for what [json.dump] wrote of [b]. *)
Definition raw_of (b : block) : raw_block :=
  {| j_index := JInt (index b);
     j_patient_id := JStr (patient_id b);
     j_doctor_id := JStr (doctor_id b);
     j_treatment := JStr (treatment b);
     j_timestamp := timestamp b;
     j_time_readable := JStr (time_readable b);
     j_date := JStr <$> date b;
     j_previous_hash := JStr (previous_hash b);
     j_hash := JStr (hash b);
     j_is_valid := JBool (is_valid b);
     j_block_type := JStr (block_type b) |}.

#[global] Instance raw_block_inhabited : Inhabited raw_block :=
  populate (raw_of inhabitant).

(** [str(v)], which the f-string applies to each value. *)
Definition py_str (v : jvalue) : string :=
  match v with
  | JStr s => s
  | JInt z => str_int z
  | JBool true => "True"
  | JBool false => "False"
  | JNull => "None"
  end.

(** [v1 == v2]: a boolean equals the integer 0 or 1 it stands for, and
    values of different types are unequal otherwise. *)
Definition py_eq (v1 v2 : jvalue) : bool :=
  match v1, v2 with
  | JStr s1, JStr s2 => String.eqb s1 s2
  | JInt z1, JInt z2 => Z.eqb z1 z2
  | JBool b1, JBool b2 => Bool.eqb b1 b2
  | JInt z, JBool b | JBool b, JInt z => Z.eqb z (if b then 1 else 0)
  | JNull, JNull => true
  | _, _ => false
  end.

(** [v[:16]] is defined for a string and raises [TypeError] for an
    integer, a boolean and [None]. *)
Definition sliceable (v : jvalue) : bool :=
  match v with JStr _ => true | _ => false end.

(** The f-string of the two loops on a loaded block. *)
Definition raw_data (b : raw_block) : string :=
  py_str (j_index b) +:+ "|" +:+ py_str (j_patient_id b) +:+ "|"
  +:+ py_str (j_doctor_id b) +:+ "|" +:+ py_str (j_treatment b) +:+ "|"
  +:+ py_str (j_previous_hash b) +:+ "|" +:+ j_timestamp b.

(** How a call ends: with a value, or with the [TypeError] of a slice
    that nothing catches. *)
Inductive answer (A : Type) :=
  | Returns (a : A)
  | Raises_TypeError.
Arguments Returns {A} a.
Arguments Raises_TypeError {A}.

(** The loop of [verify_chain]; before each [return False] it prints
    the first 16 characters of the values that differ. *)
Fixpoint verify_raw_blocks (chain : list raw_block) (range : list nat)
    : answer bool :=
  match range with
  | [] => Returns true
  | i :: range' =>
      let current_block := chain !!! i in
      let previous_block := chain !!! (i - 1)%nat in
      if negb (py_eq (j_previous_hash current_block) (j_hash previous_block))
      then
        if sliceable (j_hash previous_block) &&
           sliceable (j_previous_hash current_block)
        then Returns false else Raises_TypeError
      else
        let data := raw_data current_block in
        let recalculated_hash := create_hash data in
        if negb (py_eq (JStr recalculated_hash) (j_hash current_block))
        then
          if sliceable (j_hash current_block)
          then Returns false else Raises_TypeError
        else verify_raw_blocks chain range'
  end.

(** What [verify_chain] answers when [load_chain] returns [chain]. *)
Definition verify_loaded (chain : list raw_block) : answer bool :=
  match chain with
  | [] => Returns true
  | genesis :: _ =>
      if negb (py_eq (j_previous_hash genesis) (JStr zeros64))
      then Returns false
      else verify_raw_blocks chain (seq 1 (length chain - 1))
  end.

Record raw_report := Raw_report {
  raw_block_index : nat;
  raw_reason : string;
  raw_expected : jvalue;
  raw_actual : jvalue
}.

Definition raw_report_of (r : report) : raw_report :=
  Raw_report (block_index r) (reason r) (JStr (expected r)) (JStr (actual r)).

(** The body of the loop of [detect_tampering], which slices nothing. *)
Definition detect_raw_step (chain : list raw_block)
    (tampered_blocks : list raw_report) (i : nat) : list raw_report :=
  let current_block := chain !!! i in
  let previous_block := chain !!! (i - 1)%nat in
  let data := raw_data current_block in
  let recalculated_hash := create_hash data in
  let tampered_blocks :=
    if negb (py_eq (JStr recalculated_hash) (j_hash current_block))
    then tampered_blocks ++
         [Raw_report i "Hash mismatch" (JStr recalculated_hash)
                     (j_hash current_block)]
    else tampered_blocks in
  if negb (py_eq (j_previous_hash current_block) (j_hash previous_block))
  then tampered_blocks ++
       [Raw_report i "Previous hash mismatch" (j_hash previous_block)
                   (j_previous_hash current_block)]
  else tampered_blocks.

(** What [detect_tampering] returns when [load_chain] returns
    [chain]. *)
Definition detect_loaded (chain : list raw_block) : list raw_report :=
  fold_left (detect_raw_step chain) (seq 1 (length chain - 1)) [].

(** Two edits that give a key a value of any type. *)
Definition with_j_index (v : jvalue) (b : raw_block) : raw_block :=
  Raw v (j_patient_id b) (j_doctor_id b) (j_treatment b) (j_timestamp b)
      (j_time_readable b) (j_date b) (j_previous_hash b) (j_hash b)
      (j_is_valid b) (j_block_type b).

Definition with_j_hash (v : jvalue) (b : raw_block) : raw_block :=
  Raw (j_index b) (j_patient_id b) (j_doctor_id b) (j_treatment b)
      (j_timestamp b) (j_time_readable b) (j_date b) (j_previous_hash b) v
      (j_is_valid b) (j_block_type b).

(** What the two loops read of a block. *)
Definition raw_view (b : raw_block) : jvalue * jvalue * string :=
  (j_previous_hash b, j_hash b, raw_data b).

(** ** Vocabulary of the statements *)

(** The world a computation leaves, and the value it returns. *)
Definition after {A} (m : IO A) (w : world) : world := snd (m w).
Definition result {A} (m : IO A) (w : world) : outcome A := fst (m w).

(** The chain a call of [load_chain] yields in [w]. *)
Definition loaded (w : world) : list block :=
  match result load_chain w with
  | Ok c => c
  | Raise _ => []
  end.

(** The chain held by the primary artifact, when it holds one. *)
Definition stored (w : world) : list block :=
  match files w !! BLOCKCHAIN_FILE with
  | Some (JsonText c) => c
  | _ => []
  end.

(** Editing the persisted artifact: the primary file now holds [c]. *)
Definition persist (c : list block) (w : world) : world :=
  set_files (<[BLOCKCHAIN_FILE := JsonText c]> (files w)) w.

(** The recomputation contract of a block: its [hash] is the digest of
    the string built from its own six fields. *)
Definition hash_matches (b : block) : Prop :=
  hash b = create_hash (block_data b).

(** The invariants of a valid chain: the genesis sentinel, and for every
    later block the linkage to its predecessor and the recomputation
    contract. *)
Definition chain_valid (chain : list block) : Prop :=
  (forall g, chain !! 0%nat = Some g -> previous_hash g = zeros64) /\
  (forall i p b, chain !! i = Some p -> chain !! S i = Some b ->
                 previous_hash b = hash p /\ hash_matches b).

(** The checks of [verify_chain] as the design lists them: the genesis
    sentinel, then for each block from index 1 on the linkage and then
    the recomputation. *)
Inductive check :=
  | Sentinel
  | Linkage (i : nat)
  | Recomputation (i : nat).

Definition passes (chain : list block) (c : check) : bool :=
  match c with
  | Sentinel => String.eqb (previous_hash (chain !!! 0%nat)) zeros64
  | Linkage i =>
      String.eqb (previous_hash (chain !!! i)) (hash (chain !!! (i - 1)%nat))
  | Recomputation i =>
      String.eqb (hash (chain !!! i)) (create_hash (block_data (chain !!! i)))
  end.

Definition checks_in_order (chain : list block) : list check :=
  Sentinel ::
  flat_map (fun i => [Linkage i; Recomputation i]) (seq 1 (length chain - 1)).

(** The first check that fails, if any. *)
Definition first_failure (chain : list block) : option check :=
  List.find (fun c => negb (passes chain c)) (checks_in_order chain).

Definition verdict_of (chain : list block) (c : option check) : verdict :=
  match chain, c with
  | [], _ => Empty_valid
  | _, None => All_valid
  | _, Some Sentinel => Genesis_invalid
  | _, Some (Linkage i) => Prev_mismatch i
  | _, Some (Recomputation i) => Hash_mismatch i
  end.

(** The discrepancies of block [i], as the design lists them. *)
Definition discrepancies (chain : list block) (i : nat) : list report :=
  let cur := chain !!! i in
  let prev := chain !!! (i - 1)%nat in
  (if String.eqb (create_hash (block_data cur)) (hash cur) then []
   else [Report i "Hash mismatch" (create_hash (block_data cur)) (hash cur)])
  ++
  (if String.eqb (previous_hash cur) (hash prev) then []
   else [Report i "Previous hash mismatch" (hash prev) (previous_hash cur)]).

(** The last [n] blocks of a chain, the whole chain when it is shorter. *)
Definition last_blocks (n : nat) (chain : list block) : list block :=
  drop (length chain - n) chain.

(** The files after a successful save: the previous primary artifact,
    if there was one, is now the backup, and the primary holds the new
    chain. *)
Definition backed_up (fs : gmap string file_data) : gmap string file_data :=
  match fs !! BLOCKCHAIN_FILE with
  | Some d => <[BACKUP_FILE := d]> fs
  | None => fs
  end.

(** The block [create_genesis_block] returns when the clock reads
    [now]. *)
Definition genesis_block (now : pytime) : block :=
  {| index := 0;
     patient_id := "GENESIS";
     doctor_id := "SYSTEM";
     treatment := "Blockchain initialized";
     timestamp := t_repr now;
     time_readable := t_ctime now;
     date := None;
     previous_hash := zeros64;
     hash := create_hash ("0|GENESIS|SYSTEM|init|" +:+ zeros64 +:+ "|"
                          +:+ t_repr now);
     is_valid := true;
     block_type := "GENESIS" |}.

(** The block [add_record] appends to the non-empty chain [chain] when
    the clock reads [now]. *)
Definition record_block (chain : list block) (pid did trt : string)
    (now : pytime) : block :=
  let prev := hash (default inhabitant (last chain)) in
  let block_index := Z.of_nat (length chain) in
  {| index := block_index;
     patient_id := pid;
     doctor_id := did;
     treatment := trt;
     timestamp := t_repr now;
     time_readable := t_ctime now;
     date := Some (t_date now);
     previous_hash := prev;
     hash := create_hash (hash_input block_index pid did trt prev (t_repr now));
     is_valid := true;
     block_type := "MEDICAL_RECORD" |}.

(** The chain [add_record] extends in [w]: the chain it loads, or a
    fresh genesis block when that is empty; and the block it appends. *)
Definition base_chain (w : world) : list block :=
  match loaded w with
  | [] => [genesis_block (clock w (ticks w))]
  | c => c
  end.

Definition appended (pid did trt : string) (w : world) : block :=
  let t := match loaded w with [] => S (ticks w) | _ => ticks w end in
  record_block (base_chain w) pid did trt (clock w t).

(** Both tests of [verify_chain] on block [i]. *)
Definition block_ok (chain : list block) (i : nat) : bool :=
  String.eqb (previous_hash (chain !!! i)) (hash (chain !!! (i - 1)%nat)) &&
  String.eqb (create_hash (block_data (chain !!! i))) (hash (chain !!! i)).

(** Two chains on which the tests of block [i] read the same values. *)
Definition same_tests (chain chain' : list block) (i : nat) : Prop :=
  previous_hash (chain !!! i) = previous_hash (chain' !!! i) /\
  hash (chain !!! i) = hash (chain' !!! i) /\
  block_data (chain !!! i) = block_data (chain' !!! i) /\
  hash (chain !!! (i - 1)%nat) = hash (chain' !!! (i - 1)%nat).

(** Block [j] of the chain carries index [j]. *)
Definition indexed (chain : list block) : Prop :=
  forall j b, chain !! j = Some b -> index b = Z.of_nat j.

(** The number a list of bytes writes in base 256, after [acc]. *)
Definition number (acc : N) (bs : list N) : N :=
  fold_left (fun a b => (a * 256 + b)%N) bs acc.

(** Two more edits of a stored block: of its [previous_hash], and of
    its doctor and treatment together. *)
Definition with_previous_hash (p : string) (b : block) : block :=
  Block (index b) (patient_id b) (doctor_id b) (treatment b) (timestamp b)
        (time_readable b) (date b) p (hash b) (is_valid b) (block_type b).

Definition with_doctor_and_treatment (d t : string) (b : block) : block :=
  Block (index b) (patient_id b) d t (timestamp b)
        (time_readable b) (date b) (previous_hash b) (hash b) (is_valid b)
        (block_type b).

(** The save fails: one of the file operations inside the [try] of
    [save_chain] raises.  In order these are the read of the primary
    artifact and the write of the backup, both only when the artifact
    exists, and the write of the primary artifact.  Each takes the next
    fault of the plan and nothing runs after the first failure, so the
    save fails exactly when one of the first three faults (the first
    one, when there is no artifact) is not [Pass].  The append to the
    audit log does not count: [log_operation] swallows its own
    errors. *)
Definition is_pass (f : fault) : bool :=
  match f with Pass => true | _ => false end.

Definition save_fails (w : world) : bool :=
  let operations :=
    if bool_decide (is_Some (files w !! BLOCKCHAIN_FILE)) then 3%nat else 1%nat in
  negb (forallb is_pass (take operations (faults w))).

(** A computation that leaves the artifacts as it found them: the
    ledger, the backup and every other file of [files].  The audit log
    is not one of them: it is the field [log], and [keeps_log] speaks
    of it. *)
Definition keeps_artifacts {A} (m : IO A) : Prop :=
  forall w, files (after m w) = files w.

(** A computation that leaves the audit log as it found it. *)
Definition keeps_log {A} (m : IO A) : Prop :=
  forall w, log (after m w) = log w.

(** A computation that writes nothing, neither an artifact nor the
    audit log. *)
Definition writes_nothing {A} (m : IO A) : Prop :=
  keeps_artifacts m /\ keeps_log m.

(** The line [log_operation(message)] appends when the clock reads
    [now]. *)
Definition log_entry (now : pytime) (message : string) : string :=
  "[" +:+ t_date now +:+ "] " +:+ message.

(** What a record block says: patient, doctor and treatment. *)
Definition record_of (b : block) : string * string * string :=
  (patient_id b, doctor_id b, treatment b).

(** The characters of a lower-case hexadecimal numeral. *)
Definition is_hex_digit (c : ascii) : bool :=
  let n := N_of_ascii c in
  (((48 <=? n) && (n <=? 57)) || ((97 <=? n) && (n <=? 102)))%N.

Fixpoint all_hex (s : string) : bool :=
  match s with
  | EmptyString => true
  | String c s' => is_hex_digit c && all_hex s'
  end.

(** A clock and a fault-free world without artifacts, for examples. *)
Definition sample_clock (n : nat) : pytime :=
  let sec := str_int (Z.of_nat (20 + n)) in
  PyTime (str_int (1700000000 + Z.of_nat n) +:+ ".5")
         ("Tue Nov 14 22:13:" +:+ sec +:+ " 2023")
         ("2023-11-14 22:13:" +:+ sec).

Definition fresh_world : world := World ∅ [] sample_clock 0 [].

(** The three records of the demo at the end of the module, the world
    they leave when added to [fresh_world], and the chain stored then. *)
Definition demo_records : list (string * string * string) :=
  [("P001", "D001", "Fever|Paracetamol");
   ("P002", "D001", "Cold|Amoxicillin");
   ("P001", "D002", "Diabetes|Metformin")].

Definition demo_world : world := after (add_records demo_records) fresh_world.

Definition demo_chain : list block := Eval vm_compute in stored demo_world.


Definition with_treatment (t : string) (b : block) : block :=
  Block (index b) (patient_id b) (doctor_id b) t (timestamp b)
        (time_readable b) (date b) (previous_hash b) (hash b) (is_valid b)
        (block_type b).

(** * Properties *)

(** ** The digest is 32 bytes, so digests collide *)

Section Digest.
Import SHA256.

Lemma be_bytes_length count x : length (be_bytes count x) = count.
Proof. unfold be_bytes. by rewrite length_map, length_rev, length_seq. Qed.

Lemma be_bytes_small count x : Forall (fun b => (b < 256)%N) (be_bytes count x).
Proof.
  unfold be_bytes. apply Forall_forall. intros b Hb.
  apply list_elem_of_In, in_map_iff in Hb as (i & <- & _).
  apply N.mod_lt. discriminate.
Qed.

Lemma round_length st k : length (fst (round st k)) = length (fst st).
Proof.
  destruct st as [vars win]. unfold round.
  do 9 (destruct vars as [|? vars]; try reflexivity).
  destruct win; reflexivity.
Qed.

Lemma fold_left_measure {S B} (f : S -> B -> S) (m : S -> nat) :
  (forall s b, m (f s b) = m s) ->
  forall bs s, m (fold_left f bs s) = m s.
Proof.
  intros Hf bs. induction bs as [|b bs IH]; intros s; [reflexivity|].
  cbn [fold_left]. rewrite IH. apply Hf.
Qed.

Lemma compress_length hs blk : length (compress hs blk) = length hs.
Proof.
  unfold compress.
  pose proof (fold_left_measure round (fun st => length (fst st))
                round_length K (hs, words_of blk)) as H.
  destruct (fold_left round K (hs, words_of blk)) as [vars win]. simpl in H.
  rewrite length_map, length_combine, H. lia.
Qed.

Lemma digest_length msg : length (digest msg) = 32%nat.
Proof.
  unfold digest.
  pose proof (fold_left_measure compress (@length N) compress_length
                (chunks (length (pad msg)) 64 (pad msg)) H0) as H.
  change (length H0) with 8%nat in H.
  revert H. generalize (fold_left compress (chunks (length (pad msg)) 64 (pad msg)) H0).
  intros l Hl. do 9 (destruct l as [|? l]; try discriminate). reflexivity.
Qed.

Lemma digest_small msg : Forall (fun b => (b < 256)%N) (digest msg).
Proof.
  unfold digest. apply Forall_forall. intros b Hb.
  apply list_elem_of_In, in_flat_map in Hb as (x & _ & Hb).
  pose proof (be_bytes_small 4 x) as Hs. rewrite Forall_forall in Hs.
  apply Hs, list_elem_of_In, Hb.
Qed.

Lemma number_bound bs acc :
  Forall (fun b => (b < 256)%N) bs ->
  (number acc bs < (acc + 1) * 256 ^ N.of_nat (length bs))%N.
Proof.
  intros H. revert acc. induction H as [|b bs Hb _ IH]; intros acc.
  - simpl. lia.
  - unfold number in *. simpl fold_left.
    eapply N.lt_le_trans; [apply IH|].
    change (length (b :: bs)) with (S (length bs)).
    rewrite Nat2N.inj_succ, N.pow_succ_r'. nia.
Qed.

Lemma number_inj bs1 bs2 acc1 acc2 :
  length bs1 = length bs2 ->
  Forall (fun b => (b < 256)%N) bs1 -> Forall (fun b => (b < 256)%N) bs2 ->
  number acc1 bs1 = number acc2 bs2 -> acc1 = acc2 /\ bs1 = bs2.
Proof.
  intros Hlen H1. revert bs2 acc1 acc2 Hlen.
  induction H1 as [|b1 bs1 Hb1 _ IH]; intros [|b2 bs2] acc1 acc2 Hlen H2 E;
    try discriminate.
  - auto.
  - inversion H2 as [|? ? Hb2 H2']; subst. unfold number in *. simpl in E.
    destruct (IH bs2 _ _ ltac:(simpl in Hlen; lia) H2' E) as [Ea ->].
    assert (acc1 = acc2 /\ b1 = b2) as [-> ->] by lia. auto.
Qed.

(** Among any [2^256 + 1] messages two have the same digest. *)
Lemma create_hash_collision (message : nat -> string) :
  exists i j, (i < j)%nat /\ create_hash (message i) = create_hash (message j).
Proof.
  set (f := fun i => N.to_nat (number 0 (digest (encode (message i))))).
  set (M := N.to_nat (256 ^ 32)%N).
  destruct (nat_pigeonhole f (S M) M) as (i & j & Hij & Hf); [lia| |].
  - intros i _. unfold f, M.
    pose proof (number_bound (digest (encode (message i))) 0 (digest_small _)) as H.
    rewrite digest_length in H. change (N.of_nat 32) with 32%N in H. lia.
  - exists i, j. split; [lia|]. unfold f in Hf. apply N2Nat.inj in Hf.
    apply number_inj in Hf as [_ Hf]; auto using digest_small.
    + unfold create_hash, hexdigest. by rewrite Hf.
    + by rewrite !digest_length.
Qed.
End Digest.

Opaque create_hash.
Arguments hash_input : simpl never.
Arguments block_data : simpl never.
Arguments str_int : simpl never.

(** ** The hasher on known inputs *)

Example sha256_abc :
  SHA256.hexdigest "abc" =
  "ba7816bf8f01cfea414140de5dae2223b00361a396177a9cb410ff61f20015ad".
Proof. vm_compute. reflexivity. Qed.

Example sha256_empty :
  SHA256.hexdigest "" =
  "e3b0c44298fc1c149afbf4c8996fb92427ae41e4649b934ca495991b7852b855".
Proof. vm_compute. reflexivity. Qed.

(** A message that needs two 64-byte blocks. *)
Example sha256_two_blocks :
  create_hash ("0|GENESIS|SYSTEM|init|" +:+ zeros64 +:+ "|1700000000.5") =
  "4826aa2358a522e93d1da6ee9f44d0cb42fe42ad5f48cca3b19bb9957bf89768".
Proof. vm_compute. reflexivity. Qed.

(** ** Running the file operations *)

Ltac unfold_io :=
  unfold result, after, try_except, bind,
    exists_file, read_file, write_file, append_log, time_time, json_load,
    json_dump, next_fault, ret, raise, set_files, set_log, set_ticks,
    set_faults in *;
  simpl in *.

Section Running.
Implicit Types (w : world) (c chain : list block).

Lemma run_result {A} (m : IO A) w (a : A) :
  result m w = Ok a -> m w = (Ok a, after m w).
Proof. unfold result, after. destruct (m w) as [o w']. simpl. congruence. Qed.

Lemma next_fault_nil w : faults w = [] -> next_fault w = (Pass, w).
Proof. unfold next_fault. intros ->. reflexivity. Qed.

(** [log_operation] swallows every failure and leaves the artifacts
    alone. *)
Lemma log_operation_run msg w :
  exists w', log_operation msg w = (Ok tt, w') /\ files w' = files w /\
             clock w' = clock w /\
             (faults w = [] -> faults w' = []).
Proof.
  destruct w as [fs lg ck tk fl].
  unfold log_operation. unfold_io.
  destruct fl as [|[| |s] fl]; simpl; eauto 10.
  all: eexists; repeat split; eauto; discriminate.
Qed.

(** What [log_operation] does to the log, by the fault that meets the
    append. *)
Lemma log_operation_effect msg w :
  exists w', log_operation msg w = (Ok tt, w') /\ files w' = files w /\
    log w' = match faults w with
             | [] | Pass :: _ => log w ++ [log_entry (clock w (ticks w)) msg]
             | Deny :: _ => log w
             | Cut partial :: _ => log w ++ [partial]
             end.
Proof.
  destruct w as [fs lg ck tk fl].
  unfold log_operation, log_entry. unfold_io.
  destruct fl as [|[| |s] fl]; simpl; eauto.
Qed.

Lemma log_operation_grows msg w :
  exists w' l, log_operation msg w = (Ok tt, w') /\ files w' = files w /\
    log w' = log w ++ l /\ (length l <= 1)%nat.
Proof.
  destruct (log_operation_effect msg w) as (w' & E & Hfs & Hlog).
  exists w'.
  destruct (faults w) as [|[| |s] fl]; rewrite Hlog;
    first [ eexists [_]; repeat split; simpl; auto; lia
          | exists []; rewrite app_nil_r; repeat split; simpl; auto; lia ].
Qed.

End Running.

Opaque log_operation.

Ltac use_log_operation :=
  match goal with
  | |- context [log_operation ?m ?w0] =>
      let w' := fresh "w'" in
      let E := fresh "Elog" in
      let Hfs := fresh "Hfiles" in
      let Hck := fresh "Hclock" in
      let Hfl := fresh "Hfaults" in
      destruct (log_operation_run m w0) as (w' & E & Hfs & Hck & Hfl);
      rewrite E; simpl in *
  end.

Section Persistence.
Implicit Types (w : world) (c chain : list block).

(** [load_chain] never raises and does not write. *)
Lemma load_chain_run w :
  load_chain w = (Ok (loaded w), after load_chain w) /\
  files (after load_chain w) = files w /\
  clock (after load_chain w) = clock w /\
  ticks (after load_chain w) = ticks w /\
  log (after load_chain w) = log w.
Proof.
  unfold loaded, load_chain. unfold_io. case_bool_decide as Hex; simpl.
  - destruct (faults w) as [|[| |s] fl]; simpl;
      destruct (files w !! BLOCKCHAIN_FILE) as [[c|s']|]; simpl; auto.
  - auto.
Qed.

Lemma load_chain_eq w : load_chain w = (Ok (loaded w), after load_chain w).
Proof. apply load_chain_run. Qed.

(** Without I/O faults the chain loaded is the chain stored, and loading
    leaves the world as it is. *)
Lemma load_chain_quiet w :
  faults w = [] -> loaded w = stored w /\ after load_chain w = w.
Proof.
  intros Hf. unfold loaded, stored, load_chain. unfold_io.
  case_bool_decide as Hex; simpl.
  - rewrite Hf.
    destruct (files w !! BLOCKCHAIN_FILE) as [[c|s']|] eqn:E; simpl; auto.
  - destruct (files w !! BLOCKCHAIN_FILE) as [d|] eqn:E; auto.
    exfalso. apply Hex. eauto.
Qed.

(** What the loaded chain can be: the stored one, or the empty chain. *)
Lemma loaded_cases w : loaded w = stored w \/ loaded w = [].
Proof.
  unfold loaded, stored, load_chain. unfold_io. case_bool_decide as Hex; simpl; auto.
  destruct (faults w) as [|[| |s] fl]; simpl;
    destruct (files w !! BLOCKCHAIN_FILE) as [[c|s']|]; simpl; auto.
Qed.

(** [save_chain] never raises; when it reports success the files are as
    described above. *)
Lemma save_chain_run c w :
  exists ok w', save_chain c w = (Ok ok, w') /\
    clock w' = clock w /\
    (ok = true ->
       files w' = <[BLOCKCHAIN_FILE := JsonText c]> (backed_up (files w))) /\
    (files w' !! BLOCKCHAIN_FILE = files w !! BLOCKCHAIN_FILE \/
     files w' !! BLOCKCHAIN_FILE = Some (JsonText c) \/
     exists s, files w' !! BLOCKCHAIN_FILE = Some (OtherText s)).
Proof.
  destruct w as [fs lg ck tk fl].
  unfold save_chain, backed_up. unfold_io.
  case_bool_decide as Hex; simpl.
  - destruct (fs !! BLOCKCHAIN_FILE) as [d|] eqn:E;
      [|destruct Hex as [? ?]; discriminate].
    destruct fl as [|[| |s1] [|[| |s2] [|[| |s3] fl]]]; simpl; rewrite ?E; simpl;
      try use_log_operation;
      do 2 eexists; (split; [reflexivity|]); simpl;
      (split; [congruence|]);
      (split; [intros; try discriminate; congruence|]);
      rewrite ?Hfiles; simpl; simplify_map_eq; eauto.
  - destruct (fs !! BLOCKCHAIN_FILE) as [d|] eqn:E;
      [exfalso; apply Hex; eauto|].
    destruct fl as [|[| |s1] fl]; simpl;
      try use_log_operation;
      do 2 eexists; (split; [reflexivity|]); simpl;
      (split; [congruence|]);
      (split; [intros; try discriminate; congruence|]);
      rewrite ?Hfiles; simpl; simplify_map_eq; eauto.
Qed.

(** Without I/O faults the save succeeds. *)
Lemma save_chain_quiet c w :
  faults w = [] ->
  exists w', save_chain c w = (Ok true, w') /\
    files w' = <[BLOCKCHAIN_FILE := JsonText c]> (backed_up (files w)) /\
    clock w' = clock w /\ faults w' = [].
Proof.
  destruct w as [fs lg ck tk fl]. simpl. intros ->.
  unfold save_chain, backed_up. unfold_io.
  case_bool_decide as Hex; simpl.
  - destruct (fs !! BLOCKCHAIN_FILE) as [d|] eqn:E;
      [|destruct Hex as [? ?]; discriminate].
    simpl; rewrite ?E; simpl.
    use_log_operation. eexists; split; [reflexivity|].
    split; [congruence|]. split; [congruence|]. auto.
  - destruct (fs !! BLOCKCHAIN_FILE) as [d|] eqn:E;
      [exfalso; apply Hex; eauto|].
    simpl; rewrite ?E; simpl.
    use_log_operation. eexists; split; [reflexivity|].
    split; [congruence|]. split; [congruence|]. auto.
Qed.

(** [save_chain] returns false exactly when one of its file operations
    fails, and never raises. *)
Lemma save_chain_fails c w :
  exists ok w', save_chain c w = (Ok ok, w') /\
    ok = negb (save_fails w) /\
    (ok = true -> files w' !! BLOCKCHAIN_FILE = Some (json_dump c)).
Proof.
  destruct w as [fs lg ck tk fl].
  unfold save_chain, save_fails. unfold_io.
  case_bool_decide as Hex; simpl.
  - destruct (fs !! BLOCKCHAIN_FILE) as [d|] eqn:E;
      [|destruct Hex as [? ?]; discriminate].
    destruct fl as [|[| |s1] [|[| |s2] [|[| |s3] fl]]]; simpl; rewrite ?E; simpl;
      try use_log_operation;
      (eexists _, _; split; [reflexivity|]; split; [reflexivity|]);
      try discriminate;
      intros _; rewrite ?Hfiles; simpl; by simplify_map_eq.
  - destruct fl as [|[| |s1] fl]; simpl;
      try use_log_operation;
      (eexists _, _; split; [reflexivity|]; split; [reflexivity|]);
      try discriminate;
      intros _; rewrite ?Hfiles; simpl; by simplify_map_eq.
Qed.

End Persistence.

(** ** The verification loop *)

Section Verification.
Implicit Types (chain : list block) (range : list nat).

Lemma verify_blocks_find chain range :
  verify_blocks chain range =
  match List.find (fun c => negb (passes chain c))
                  (flat_map (fun i => [Linkage i; Recomputation i]) range) with
  | None => All_valid
  | Some (Linkage i) => Prev_mismatch i
  | Some (Recomputation i) => Hash_mismatch i
  | Some Sentinel => Genesis_invalid
  end.
Proof.
  induction range as [|i range IH]; simpl; [reflexivity|].
  destruct (String.eqb (previous_hash (chain !!! i))
                       (hash (chain !!! (i - 1)%nat))); simpl; [|reflexivity].
  rewrite (String.eqb_sym (hash (chain !!! i))).
  destruct (String.eqb (create_hash (block_data (chain !!! i)))
                       (hash (chain !!! i))); simpl; [|reflexivity].
  exact IH.
Qed.

Lemma check_chain_first_failure chain :
  check_chain chain = verdict_of chain (first_failure chain).
Proof.
  destruct chain as [|g rest]; [reflexivity|].
  unfold check_chain, first_failure, checks_in_order.
  cbn [List.find passes]. change ((g :: rest) !!! 0%nat) with g.
  destruct (String.eqb (previous_hash g) zeros64); simpl negb; cbv iota;
    [|reflexivity].
  rewrite verify_blocks_find.
  destruct (List.find _ _) as [[| |]|]; reflexivity.
Qed.

Lemma verify_blocks_true chain range :
  verdict_bool (verify_blocks chain range) = true <->
  Forall (fun i => block_ok chain i = true) range.
Proof.
  induction range as [|i range IH]; simpl.
  - split; auto.
  - rewrite Forall_cons, <- IH. unfold block_ok.
    destruct (String.eqb (previous_hash (chain !!! i))
                         (hash (chain !!! (i - 1)%nat))); simpl;
      [|intuition discriminate].
    destruct (String.eqb (create_hash (block_data (chain !!! i)))
                         (hash (chain !!! i))); simpl; intuition discriminate.
Qed.

Lemma block_ok_spec chain i p b :
  chain !! i = Some p -> chain !! S i = Some b ->
  block_ok chain (S i) = true <-> previous_hash b = hash p /\ hash_matches b.
Proof.
  intros Hp Hb. unfold block_ok, hash_matches.
  replace (S i - 1)%nat with i by lia.
  rewrite (list_lookup_total_correct _ _ _ Hp).
  rewrite (list_lookup_total_correct _ _ _ Hb).
  rewrite andb_true_iff, !String.eqb_eq. intuition congruence.
Qed.

(** [verify_chain]'s loop accepts exactly the chains that satisfy the
    invariants. *)
Lemma check_chain_valid chain :
  verdict_bool (check_chain chain) = true <-> chain_valid chain.
Proof.
  destruct chain as [|g rest].
  - simpl. split; [|reflexivity]. intros _. split.
    + intros g Hg. discriminate.
    + intros i p b Hp. discriminate.
  - unfold check_chain, chain_valid.
    destruct (String.eqb (previous_hash g) zeros64) eqn:Eg; simpl negb; cbv iota.
    + apply String.eqb_eq in Eg. rewrite verify_blocks_true, Forall_forall.
      split.
      * intros H. split; [intros g' [= <-]; exact Eg|].
        intros i p b Hp Hb. apply (block_ok_spec _ i p b Hp Hb).
        apply H. apply elem_of_seq. apply lookup_lt_Some in Hb. simpl in *. lia.
      * intros [_ H] j Hj. apply elem_of_seq in Hj. simpl in Hj.
        destruct j as [|i]; [lia|].
        destruct (lookup_lt_is_Some_2 (g :: rest) i) as [p Hp]; [simpl; lia|].
        destruct (lookup_lt_is_Some_2 (g :: rest) (S i)) as [b Hb]; [simpl; lia|].
        apply (block_ok_spec _ i p b Hp Hb). eauto.
    + simpl. split; [discriminate|]. intros [H _].
      apply String.eqb_neq in Eg. exfalso. apply Eg. apply H. reflexivity.
Qed.

End Verification.

(** ** Appending keeps the invariants *)

Section Appending.
Implicit Types (w : world) (c chain : list block) (b : block).

Lemma record_block_matches chain pid did trt now :
  hash_matches (record_block chain pid did trt now).
Proof. reflexivity. Qed.

Lemma record_block_link chain pid did trt now tail :
  last chain = Some tail ->
  previous_hash (record_block chain pid did trt now) = hash tail.
Proof. intros H. unfold record_block. simpl. rewrite H. reflexivity. Qed.

Lemma chain_valid_nil : chain_valid [].
Proof. split; intros; discriminate. Qed.

Lemma chain_valid_genesis now : chain_valid [genesis_block now].
Proof.
  split.
  - intros g [= <-]. reflexivity.
  - intros i p b Hp Hb. destruct i; discriminate.
Qed.

Lemma chain_valid_snoc chain tail b :
  chain_valid chain -> last chain = Some tail ->
  previous_hash b = hash tail -> hash_matches b ->
  chain_valid (chain ++ [b]).
Proof.
  intros [Hg Hs] Hl Hp Hm. split.
  - intros g Hlook. apply Hg.
    destruct chain as [|g0 rest]; [discriminate|]. exact Hlook.
  - intros i p b' Hi HSi.
    apply lookup_snoc_Some in HSi as [[Hlt HSi]|[Hlen ->]].
    + rewrite lookup_app_l in Hi by lia. eauto.
    + rewrite lookup_app_l in Hi by lia.
      rewrite last_lookup in Hl. rewrite <- Hlen in Hl. simpl in Hl.
      assert (p = tail) by congruence. subst. auto.
Qed.

Lemma base_chain_last w : exists tail, last (base_chain w) = Some tail.
Proof.
  unfold base_chain. destruct (loaded w) as [|b c] eqn:E; [simpl; eauto|].
  destruct (last (b :: c)) eqn:El; [eauto|].
  apply last_None in El. discriminate.
Qed.

Lemma base_chain_valid w :
  chain_valid (loaded w) -> chain_valid (base_chain w).
Proof.
  unfold base_chain. destruct (loaded w); auto using chain_valid_genesis.
Qed.

(** The chain [add_record] hands to [save_chain] satisfies the
    invariants when the loaded chain does. *)
Lemma extended_chain_valid pid did trt w :
  chain_valid (loaded w) ->
  chain_valid (base_chain w ++ [appended pid did trt w]).
Proof.
  intros Hv. destruct (base_chain_last w) as [tail Ht].
  eapply chain_valid_snoc; eauto using base_chain_valid.
  - apply record_block_link. exact Ht.
  - apply record_block_matches.
Qed.

(** [add_record] step by step: it never raises, it hands the extended
    chain to [save_chain], and it returns the hash of the appended block
    whatever [save_chain] reports. *)
Lemma add_record_run pid did trt w :
  let w3 := after (add_record pid did trt) w in
  exists w1 saved w2,
    save_chain (base_chain w ++ [appended pid did trt w]) w1 = (Ok saved, w2) /\
    result (add_record pid did trt) w = Ok (hash (appended pid did trt w)) /\
    files w1 = files w /\ clock w1 = clock w /\
    files w3 = files w2 /\ clock w3 = clock w2 /\
    (faults w2 = [] -> faults w3 = []) /\
    (faults w = [] -> loaded w = stored w /\ faults w1 = []).
Proof.
  destruct (load_chain_run w) as (El & Hfs & Hck & Htk & _).
  pose proof (load_chain_quiet w) as Hq.
  unfold result, after. simpl.
  remember (add_record pid did trt w) as r eqn:Er.
  unfold add_record in Er. unfold bind at 1 in Er. rewrite El in Er.
  remember (after load_chain w) as w0 eqn:Ew0.
  assert (Hq' : faults w = [] -> loaded w = stored w /\ faults w0 = []).
  { intros Hf. destruct (Hq Hf) as [Hs Hw]. split; [exact Hs|]. congruence. }
  clear Hq Ew0 El. unfold appended, base_chain.
  destruct (loaded w) as [|b0 c0] eqn:Ec.
  - (* empty ledger: a genesis block is made first *)
    unfold create_genesis_block, tail_block in Er. unfold_io.
    rewrite Hck, Htk in Er.
    fold (genesis_block (clock w (ticks w))) in Er.
    match type of Er with
    | context [save_chain ?c ?wx] =>
        destruct (save_chain_run c wx) as (saved & w2 & Es & Hc2 & _)
    end.
    rewrite Es in Er. simpl in Er.
    do 3 eexists. split; [exact Es|].
    destruct saved;
      [destruct (log_operation_run
                   ("Block added - Index: " +:+ str_int (Z.of_nat 1)
                    +:+ ", Patient: " +:+ pid +:+ ", Doctor: " +:+ did) w2)
         as (w' & Elog & Hfiles & Hclock & Hfaults);
       rewrite Elog in Er|];
      subst r; simpl; auto 10.
  - (* the loaded chain is extended *)
    unfold tail_block in Er. unfold_io.
    destruct (last (b0 :: c0)) as [tail|] eqn:El';
      [|apply last_None in El'; discriminate].
    simpl in Er. rewrite Hck, Htk in Er.
    change (length (b0 :: c0)) with (S (length c0)) in *.
    unfold record_block. rewrite El'. simpl.
    match type of Er with
    | context [save_chain ?c ?wx] =>
        destruct (save_chain_run c wx) as (saved & w2 & Es & Hc2 & _)
    end.
    rewrite Es in Er. simpl in Er.
    do 3 eexists. split; [exact Es|].
    destruct saved;
      [destruct (log_operation_run
                   ("Block added - Index: "
                    +:+ str_int (Z.of_nat (S (length c0)))
                    +:+ ", Patient: " +:+ pid +:+ ", Doctor: " +:+ did) w2)
         as (w' & Elog & Hfiles & Hclock & Hfaults);
       rewrite Elog in Er|];
      subst r; simpl; auto 10.
Qed.

End Appending.

(** ** What the read-only functions return *)

Section Reading.
Implicit Types (w : world) (c chain : list block).

Lemma verify_chain_result w :
  result verify_chain w = Ok (verdict_bool (check_chain (loaded w))).
Proof.
  unfold result, verify_chain, bind. rewrite load_chain_eq.
  destruct (check_chain (loaded w)); try reflexivity.
  match goal with
  | |- context [log_operation ?m ?w0] =>
      destruct (log_operation_run m w0) as (w' & -> & _)
  end.
  reflexivity.
Qed.

Lemma detect_tampering_result w :
  result detect_tampering w = Ok (detect_blocks (loaded w)).
Proof.
  unfold result, detect_tampering, bind. rewrite load_chain_eq. reflexivity.
Qed.

Lemma get_recent_records_result count w :
  result (get_recent_records count) w =
  Ok (if (Z.of_nat (length (loaded w)) >=? count)%Z
      then slice_from (- count) (loaded w) else loaded w).
Proof.
  unfold result, get_recent_records, bind. rewrite load_chain_eq. reflexivity.
Qed.

(** The chain loaded depends on the primary artifact and on the pending
    faults only. *)
Lemma loaded_ext w w' :
  files w !! BLOCKCHAIN_FILE = files w' !! BLOCKCHAIN_FILE ->
  faults w = faults w' -> loaded w = loaded w'.
Proof.
  destruct w as [fs lg ck tk fl], w' as [fs' lg' ck' tk' fl']. simpl.
  intros Hfs <-. unfold loaded, load_chain. unfold_io. rewrite <- Hfs.
  case_bool_decide; simpl; [|reflexivity].
  destruct fl as [|[| |s] fl]; simpl; rewrite <- ?Hfs;
    destruct (fs !! BLOCKCHAIN_FILE) as [[c|s']|]; reflexivity.
Qed.

Lemma stored_persist c w : stored (persist c w) = c.
Proof. unfold stored, persist, set_files. simpl. by rewrite lookup_insert_eq. Qed.

Lemma loaded_quiet w : faults w = [] -> loaded w = stored w.
Proof. intros H. apply load_chain_quiet, H. Qed.

End Reading.

(** ** The tamper scan *)

Section Scan.
Implicit Types (chain : list block) (range : list nat).

Lemma detect_step_app chain acc i :
  detect_step chain acc i = acc ++ discrepancies chain i.
Proof.
  unfold detect_step, discrepancies.
  destruct (String.eqb (create_hash (block_data (chain !!! i)))
                       (hash (chain !!! i)));
    destruct (String.eqb (previous_hash (chain !!! i))
                         (hash (chain !!! (i - 1)%nat))); simpl;
    rewrite ?app_nil_r, <- ?app_assoc; reflexivity.
Qed.

Lemma detect_fold chain range acc :
  fold_left (detect_step chain) range acc =
  acc ++ flat_map (discrepancies chain) range.
Proof.
  revert acc. induction range as [|i range IH]; intros acc; simpl.
  - by rewrite app_nil_r.
  - rewrite IH, detect_step_app, <- app_assoc. reflexivity.
Qed.

Lemma detect_blocks_discrepancies chain :
  detect_blocks chain =
  flat_map (discrepancies chain) (seq 1 (length chain - 1)).
Proof. unfold detect_blocks. apply detect_fold. Qed.

Lemma discrepancies_index chain i e :
  In e (discrepancies chain i) -> block_index e = i.
Proof.
  unfold discrepancies. intros H. apply in_app_or in H as [H|H];
    [destruct (String.eqb (create_hash _) _)|destruct (String.eqb (previous_hash _) _)];
    simpl in H; try tauto; destruct H as [<-|[]]; reflexivity.
Qed.

Lemma verify_blocks_ext chain chain' range :
  Forall (same_tests chain chain') range ->
  verify_blocks chain range = verify_blocks chain' range.
Proof.
  induction 1 as [|i range (Hp & Hh & Hd & Hq) _ IH]; simpl; [reflexivity|].
  rewrite Hp, Hh, Hd, Hq, IH. reflexivity.
Qed.

Lemma discrepancies_ext chain chain' i :
  same_tests chain chain' i -> discrepancies chain i = discrepancies chain' i.
Proof.
  intros (Hp & Hh & Hd & Hq). unfold discrepancies.
  rewrite Hp, Hh, Hd, Hq. reflexivity.
Qed.

Lemma detect_blocks_ext chain chain' :
  length chain = length chain' ->
  Forall (same_tests chain chain') (seq 1 (length chain - 1)) ->
  detect_blocks chain = detect_blocks chain'.
Proof.
  intros Hlen H. rewrite !detect_blocks_discrepancies, <- Hlen.
  induction H as [|i range Hi _ IH]; simpl; [reflexivity|].
  rewrite IH, (discrepancies_ext _ _ _ Hi). reflexivity.
Qed.

End Scan.

(** ** The hashed string determines each of its fields *)

Section HashedString.

Lemma string_length_app (s t : string) :
  String.length (s +:+ t) = (String.length s + String.length t)%nat.
Proof. induction s as [|a s IH]; [reflexivity|]. simpl. congruence. Qed.



Lemma str_int_inj (x y : Z) : str_int x = str_int y -> x = y.
Proof.
  unfold str_int. intros H.
  apply (f_equal NilEmpty.int_of_string) in H. rewrite !NilEmpty.isi in H.
  injection H as H. apply (f_equal Z.of_int) in H.
  rewrite !DecimalZ.of_to in H. exact H.
Qed.





End HashedString.

(** ** Sequences of add_record calls *)

Section Calls.
Implicit Types (w : world) (c chain : list block)
  (rs : list (string * string * string)).

Lemma bind_ok {A B} (m : IO A) (k : A -> IO B) w a w' :
  m w = (Ok a, w') -> bind m k w = k a w'.
Proof. unfold bind. intros ->. reflexivity. Qed.

Lemma add_record_total pid did trt w :
  exists h, add_record pid did trt w = (Ok h, after (add_record pid did trt) w).
Proof.
  destruct (add_record_run pid did trt w) as (w1 & sv & w2 & _ & Hr & _).
  unfold result, after in *.
  destruct (add_record pid did trt w) as [[h|e] w3]; simpl in *; [eauto|discriminate].
Qed.

Lemma add_records_total rs w :
  exists hs, add_records rs w = (Ok hs, after (add_records rs) w).
Proof.
  revert w. induction rs as [|[[p d] t] rs IH]; intros w.
  - exists []. reflexivity.
  - destruct (add_record_total p d t w) as [h Eh].
    destruct (IH (after (add_record p d t) w)) as [hs Ehs].
    assert (E : add_records ((p, d, t) :: rs) w =
                (Ok (h :: hs), after (add_records rs) (after (add_record p d t) w))).
    { simpl. rewrite (bind_ok _ _ _ _ _ Eh), (bind_ok _ _ _ _ _ Ehs). reflexivity. }
    exists (h :: hs). unfold after at 1. rewrite E. reflexivity.
Qed.

Lemma add_records_cons pid did trt rs w :
  after (add_records ((pid, did, trt) :: rs)) w =
  after (add_records rs) (after (add_record pid did trt) w).
Proof.
  destruct (add_record_total pid did trt w) as [h Eh].
  destruct (add_records_total rs (after (add_record pid did trt) w)) as [hs Ehs].
  unfold after at 1. simpl.
  rewrite (bind_ok _ _ _ _ _ Eh), (bind_ok _ _ _ _ _ Ehs). reflexivity.
Qed.

(** The primary artifact after a call of [add_record]: unchanged, the
    extended chain, or a text left behind by a failed write. *)
Lemma add_record_stored pid did trt w :
  let w' := after (add_record pid did trt) w in
  stored w' = stored w \/
  stored w' = base_chain w ++ [appended pid did trt w] \/
  stored w' = [].
Proof.
  destruct (add_record_run pid did trt w)
    as (w1 & sv & w2 & Es & _ & Hf1 & _ & Hf3 & _).
  destruct (save_chain_run (base_chain w ++ [appended pid did trt w]) w1)
    as (sv' & w2' & Es' & _ & _ & Hcases).
  rewrite Es in Es'. injection Es' as <- <-.
  simpl. unfold stored. rewrite Hf3.
  destruct Hcases as [H|[H|[s H]]]; rewrite H; rewrite ?Hf1; auto.
Qed.

Lemma add_record_keeps_valid pid did trt w :
  chain_valid (stored w) ->
  chain_valid (stored (after (add_record pid did trt) w)).
Proof.
  intros Hv.
  destruct (add_record_stored pid did trt w) as [H|[H|H]]; rewrite H.
  - exact Hv.
  - apply extended_chain_valid.
    destruct (loaded_cases w) as [-> | ->]; auto using chain_valid_nil.
  - apply chain_valid_nil.
Qed.

Lemma add_records_keep_valid rs w :
  chain_valid (stored w) -> chain_valid (stored (after (add_records rs) w)).
Proof.
  revert w. induction rs as [|[[p d] t] rs IH]; intros w Hv; [exact Hv|].
  rewrite add_records_cons.
  apply IH, add_record_keeps_valid, Hv.
Qed.

(** Without I/O faults [add_record] stores the extended chain. *)
Lemma add_record_quiet pid did trt w :
  faults w = [] ->
  let w' := after (add_record pid did trt) w in
  faults w' = [] /\ loaded w = stored w /\
  stored w' = base_chain w ++ [appended pid did trt w] /\
  result (add_record pid did trt) w = Ok (hash (appended pid did trt w)).
Proof.
  intros Hf.
  destruct (add_record_run pid did trt w)
    as (w1 & sv & w2 & Es & Hr & Hf1 & _ & Hf3 & _ & Hq3 & Hq).
  destruct (Hq Hf) as [Hl Hfl1].
  destruct (save_chain_quiet (base_chain w ++ [appended pid did trt w]) w1 Hfl1)
    as (w2' & Es' & Hfiles & _ & Hfl2).
  rewrite Es in Es'. injection Es' as -> <-.
  simpl. repeat split; auto.
  unfold stored. rewrite Hf3, Hfiles. by rewrite lookup_insert_eq.
Qed.

Lemma indexed_snoc chain b :
  indexed chain -> index b = Z.of_nat (length chain) -> indexed (chain ++ [b]).
Proof.
  intros Hc Hb j b' Hj.
  apply lookup_snoc_Some in Hj as [[_ Hj]|[-> <-]]; auto.
Qed.

Lemma base_chain_indexed w : indexed (loaded w) -> indexed (base_chain w).
Proof.
  unfold base_chain. destruct (loaded w); [|auto].
  intros _ [|j] b; [intros [= <-]; reflexivity|discriminate].
Qed.

Lemma base_chain_length w :
  length (base_chain w) = Nat.max 1 (length (loaded w)).
Proof. unfold base_chain. destruct (loaded w); simpl; lia. Qed.

(** Length and indices of the stored chain along fault-free calls. *)
Lemma add_records_quiet rs w :
  faults w = [] -> indexed (stored w) ->
  let w' := after (add_records rs) w in
  faults w' = [] /\ indexed (stored w') /\
  length (stored w') =
    match rs with
    | [] => length (stored w)
    | _ => (Nat.max 1 (length (stored w)) + length rs)%nat
    end.
Proof.
  revert w. induction rs as [|[[p d] t] rs IH]; intros w Hf Hi; [cbv zeta; auto|].
  pose proof (add_records_cons p d t rs w) as Ha.
  destruct (add_record_quiet p d t w Hf) as (Hf' & Hl & Hs & _).
  assert (Hi' : indexed (stored (after (add_record p d t) w))).
  { rewrite Hs. apply indexed_snoc.
    - apply base_chain_indexed. by rewrite Hl.
    - reflexivity. }
  destruct (IH _ Hf' Hi') as (Hf2 & Hi2 & Hlen).
  cbv zeta. rewrite Ha. repeat split; auto.
  rewrite Hlen, Hs, length_app, base_chain_length, Hl. simpl.
  destruct rs; simpl; lia.
Qed.

End Calls.

(** ** Chains the checks cannot tell apart *)

Section Indistinguishable.
Implicit Types (w : world) (chain : list block) (b g : block).

Lemma check_chain_ext g g' rest rest' :
  previous_hash g = previous_hash g' ->
  length rest = length rest' ->
  Forall (same_tests (g :: rest) (g' :: rest')) (seq 1 (length rest)) ->
  check_chain (g :: rest) = check_chain (g' :: rest').
Proof.
  intros Hp Hlen Hs. unfold check_chain. rewrite Hp.
  destruct (negb _); [reflexivity|].
  replace (length (g' :: rest') - 1)%nat with (length rest) by (simpl; lia).
  replace (length (g :: rest) - 1)%nat with (length rest) by (simpl; lia).
  apply verify_blocks_ext, Hs.
Qed.

(** Replacing the first block by one with the same [previous_hash] and
    [hash] changes no test. *)
Lemma same_tests_genesis g g' rest i :
  hash g = hash g' -> (1 <= i)%nat ->
  same_tests (g :: rest) (g' :: rest) i.
Proof.
  intros Hh Hi. destruct i as [|[|k]]; [lia| |]; repeat split; auto.
Qed.

(** Replacing block [i] by one on which the tests read the same values
    changes no test. *)
Lemma same_tests_insert chain i b b' j :
  chain !! i = Some b ->
  previous_hash b' = previous_hash b -> hash b' = hash b ->
  block_data b' = block_data b ->
  same_tests (<[i := b']> chain) chain j.
Proof.
  intros Hb Hp Hh Hd.
  assert (Hi : (i < length chain)%nat) by (eapply lookup_lt_Some; eauto).
  assert (Hb' : chain !!! i = b) by (apply list_lookup_total_correct; auto).
  assert (Hat : forall k,
             previous_hash (<[i := b']> chain !!! k) = previous_hash (chain !!! k) /\
             hash (<[i := b']> chain !!! k) = hash (chain !!! k) /\
             block_data (<[i := b']> chain !!! k) = block_data (chain !!! k)).
  { intros k. destruct (decide (k = i)) as [->|Hne].
    - rewrite list_lookup_total_insert_eq by exact Hi. rewrite Hb'. auto.
    - rewrite list_lookup_total_insert_ne by auto. auto. }
  unfold same_tests.
  destruct (Hat j) as (? & ? & ?), (Hat (j - 1)%nat) as (_ & ? & _). auto.
Qed.

Lemma loaded_persist c w :
  faults w = [] -> loaded (persist c w) = c.
Proof. intros Hf. rewrite loaded_quiet by exact Hf. apply stored_persist. Qed.

Lemma loaded_persist_ext c c' w :
  loaded (persist c w) = c /\ loaded (persist c' w) = c' \/
  loaded (persist c w) = [] /\ loaded (persist c' w) = [].
Proof.
  destruct w as [fs lg ck tk fl]. unfold loaded, persist, load_chain.
  unfold_io. rewrite !lookup_insert_eq.
  rewrite !bool_decide_eq_true_2 by eauto. simpl.
  destruct fl as [|[| |s] fl]; simpl; rewrite ?lookup_insert_eq; auto.
Qed.

(** A chain that satisfies the invariants has no discrepancy. *)
Lemma detect_blocks_valid chain : chain_valid chain -> detect_blocks chain = [].
Proof.
  intros Hv. apply check_chain_valid in Hv.
  rewrite detect_blocks_discrepancies.
  destruct chain as [|g rest]; [reflexivity|].
  unfold check_chain in Hv.
  destruct (negb _) in Hv; [discriminate|].
  apply verify_blocks_true in Hv.
  induction Hv as [|i range Hi _ IH]; [reflexivity|].
  simpl. rewrite IH, app_nil_r. unfold discrepancies.
  unfold block_ok in Hi. apply andb_true_iff in Hi as [-> ->]. reflexivity.
Qed.

End Indistinguishable.

(** * The claims *)

(** ** Block construction *)

(** Every record block satisfies the recomputation contract. *)
Lemma appended_hash_matches pid did trt w :
  hash_matches (appended pid did trt w).
Proof. apply record_block_matches. Qed.

(** Whatever the clock reads, the string [create_genesis_block] hashes
    is not the string built from the fields of the block it returns. *)
Lemma genesis_hashed_string_differs (now : pytime) :
  "0|GENESIS|SYSTEM|init|" +:+ zeros64 +:+ "|" +:+ t_repr now <>
  block_data (genesis_block now).
Proof. intros E. vm_compute in E. discriminate E. Qed.

(** C1 (the code departs from the claim).  The genesis block does not
    satisfy the recomputation contract: [create_genesis_block] hashes
    the literal ["init"] in the place of the treatment, while the block
    stores ["Blockchain initialized"].  With the clock reading
    [1700000000.5] the stored hash and the digest recomputed from the
    block's own fields are the two different values below. *)
Theorem genesis_hash_is_not_recomputable :
  let g := genesis_block (sample_clock 0) in
  result create_genesis_block fresh_world = Ok g /\
  treatment g = "Blockchain initialized" /\
  block_data g =
    "0|GENESIS|SYSTEM|Blockchain initialized|" +:+ zeros64 +:+ "|1700000000.5" /\
  hash g = "4826aa2358a522e93d1da6ee9f44d0cb42fe42ad5f48cca3b19bb9957bf89768" /\
  create_hash (block_data g) =
    "531494cc93bd1ef117d77c8ded27c6276bcdea29d18ce192b8a167957cd57cc3" /\
  ~ hash_matches g.
Proof.
  repeat split; try (vm_compute; reflexivity).
  unfold hash_matches. vm_compute. discriminate.
Qed.

(** ** verify_chain *)

(** C4.  [verify_chain] returns true for the empty chain; for a chain
    whose first block has a [previous_hash] other than 64 zeros it
    returns false; otherwise it leaves at the first check that fails, in
    the order linkage of block 1, recomputation of block 1, linkage of
    block 2, ..., and returns true only when none fails. *)
Theorem verify_chain_first_failure (w : world) :
  let chain := loaded w in
  (chain = [] -> result verify_chain w = Ok true) /\
  (forall g rest, chain = g :: rest -> previous_hash g <> zeros64 ->
                  result verify_chain w = Ok false) /\
  check_chain chain = verdict_of chain (first_failure chain) /\
  (chain <> [] ->
   result verify_chain w = Ok (bool_decide (first_failure chain = None))).
Proof.
  intros chain. rewrite verify_chain_result. fold chain.
  rewrite check_chain_first_failure.
  split; [intros ->; reflexivity|]. split; [|split; [reflexivity|]].
  - intros g rest E Hg. rewrite E.
    unfold first_failure, checks_in_order.
    cbn [List.find passes]. change ((g :: rest) !!! 0%nat) with g.
    apply String.eqb_neq in Hg. rewrite Hg. reflexivity.
  - intros Hne. destruct chain as [|g rest]; [congruence|].
    destruct (first_failure (g :: rest)) as [[| |]|]; reflexivity.
Qed.

(** ** detect_tampering *)

(** C5.  [detect_tampering] looks at every index from 1 on and returns,
    in index order, the discrepancies of each block: an entry with
    reason "Hash mismatch" when the recomputed digest differs from the
    stored hash, then an entry with reason "Previous hash mismatch" when
    the linkage fails; nothing else is returned. *)
Theorem detect_tampering_reports_all (w : world) :
  let chain := loaded w in
  exists l,
    result detect_tampering w = Ok l /\
    l = flat_map (discrepancies chain) (seq 1 (length chain - 1)) /\
    forall i, (1 <= i < length chain)%nat ->
      let cur := chain !!! i in
      let prev := chain !!! (i - 1)%nat in
      (create_hash (block_data cur) <> hash cur <->
       In (Report i "Hash mismatch" (create_hash (block_data cur)) (hash cur)) l) /\
      (previous_hash cur <> hash prev <->
       In (Report i "Previous hash mismatch" (hash prev) (previous_hash cur)) l) /\
      (forall e, In e l -> block_index e = i ->
                 In e (discrepancies chain i)).
Proof.
  intros chain. eexists. split.
  { rewrite detect_tampering_result, detect_blocks_discrepancies. reflexivity. }
  split; [reflexivity|]. fold chain.
  intros i Hi cur prev. subst cur prev.
  assert (Hin : In i (seq 1 (length chain - 1))) by (apply in_seq; lia).
  repeat split.
  - intros Hne. apply in_flat_map. exists i. split; [exact Hin|].
    unfold discrepancies. apply in_or_app. left.
    apply String.eqb_neq in Hne. rewrite Hne. left. reflexivity.
  - intros H. apply in_flat_map in H as (j & _ & Hj).
    assert (j = i) by (apply discrepancies_index in Hj; simpl in Hj; congruence).
    subst j. unfold discrepancies in Hj. apply in_app_or in Hj as [Hj|Hj].
    + destruct (String.eqb _ _) eqn:E in Hj; [destruct Hj|].
      apply String.eqb_neq. exact E.
    + destruct (String.eqb _ _) in Hj; [destruct Hj|].
      destruct Hj as [Hj|[]]. discriminate.
  - intros Hne. apply in_flat_map. exists i. split; [exact Hin|].
    unfold discrepancies. apply in_or_app. right.
    apply String.eqb_neq in Hne. rewrite Hne. left. reflexivity.
  - intros H. apply in_flat_map in H as (j & _ & Hj).
    assert (j = i) by (apply discrepancies_index in Hj; simpl in Hj; congruence).
    subst j. unfold discrepancies in Hj. apply in_app_or in Hj as [Hj|Hj].
    + destruct (String.eqb _ _) in Hj; [destruct Hj|].
      destruct Hj as [Hj|[]]. discriminate.
    + destruct (String.eqb _ _) eqn:E in Hj; [destruct Hj|].
      apply String.eqb_neq. exact E.
  - intros e He Hidx. apply in_flat_map in He as (j & _ & Hj).
    assert (j = i) by (apply discrepancies_index in Hj; congruence).
    subst j. exact Hj.
Qed.

(** ** add_record *)

(** C3.  Starting from an empty ledger, after any finite sequence of
    [add_record] calls [verify_chain] returns true.  This holds whatever
    the I/O faults along the way, in particular when every save
    succeeds. *)
Theorem add_records_then_verify
    (rs : list (string * string * string)) (w0 : world) :
  stored w0 = [] ->
  result verify_chain (after (add_records rs) w0) = Ok true.
Proof.
  intros H0. rewrite verify_chain_result. f_equal.
  apply check_chain_valid.
  assert (Hv : chain_valid (stored (after (add_records rs) w0))).
  { apply add_records_keep_valid. rewrite H0. apply chain_valid_nil. }
  destruct (loaded_cases (after (add_records rs) w0)) as [-> | ->];
    auto using chain_valid_nil.
Qed.

Lemma add_records_then_verify_witness :
  stored fresh_world = [] /\
  result verify_chain (after (add_records demo_records) fresh_world) = Ok true.
Proof.
  split; [reflexivity|].
  apply (add_records_then_verify demo_records fresh_world). reflexivity.
Defined.

(** C6.  After [N] fault-free calls on an empty ledger, one more call of
    [add_record] leaves a stored chain of [N + 2] blocks whose block [j]
    has index [j], and returns the hash of the last block.  For [N = 0]
    the chain is a genesis block with index 0 followed by the record
    with index 1, whose [previous_hash] is the hash of the genesis
    block. *)
Theorem add_record_extends_chain
    (prior : list (string * string * string)) (pid did trt : string)
    (w0 : world) :
  stored w0 = [] -> faults w0 = [] ->
  let w := after (add_records prior) w0 in
  let w' := after (add_record pid did trt) w in
  exists h tail,
    result (add_record pid did trt) w = Ok h /\
    length (stored w') = (length prior + 2)%nat /\
    (forall j b, stored w' !! j = Some b -> index b = Z.of_nat j) /\
    last (stored w') = Some tail /\ hash tail = h /\
    (prior = [] ->
     exists g, stored w' = [g; tail] /\ block_type g = "GENESIS" /\
               index g = 0%Z /\ index tail = 1%Z /\
               previous_hash tail = hash g).
Proof.
  intros H0 Hf0 w w'.
  assert (Hi0 : indexed (stored w0)) by (rewrite H0; intros j b; discriminate).
  destruct (add_records_quiet prior w0 Hf0 Hi0) as (Hf & Hi & Hlen).
  fold w in Hf, Hi, Hlen.
  destruct (add_record_quiet pid did trt w Hf) as (_ & Hl & Hs & Hr).
  fold w' in Hs.
  exists (hash (appended pid did trt w)), (appended pid did trt w).
  split; [exact Hr|]. split; [|split; [|split; [|split]]].
  - rewrite Hs, length_app, base_chain_length, Hl, Hlen, H0. simpl.
    destruct prior; simpl; lia.
  - rewrite Hs. apply indexed_snoc; [|reflexivity].
    apply base_chain_indexed. by rewrite Hl.
  - rewrite Hs. apply last_snoc.
  - reflexivity.
  - intros ->. subst w. change (after (add_records []) w0) with w0 in *.
    exists (genesis_block (clock w0 (ticks w0))).
    rewrite Hs. unfold appended, base_chain. rewrite Hl, H0.
    repeat split.
Qed.

Lemma add_record_extends_chain_witness :
  stored fresh_world = [] /\ faults fresh_world = [] /\
  let w := after (add_records (firstn 2 demo_records)) fresh_world in
  let w' := after (add_record "P001" "D002" "Diabetes|Metformin") w in
  exists h tail,
    result (add_record "P001" "D002" "Diabetes|Metformin") w = Ok h /\
    length (stored w') = (length (firstn 2 demo_records) + 2)%nat /\
    (forall j b, stored w' !! j = Some b -> index b = Z.of_nat j) /\
    last (stored w') = Some tail /\ hash tail = h /\
    (firstn 2 demo_records = [] ->
     exists g, stored w' = [g; tail] /\ block_type g = "GENESIS" /\
               index g = 0%Z /\ index tail = 1%Z /\
               previous_hash tail = hash g).
Proof.
  split; [reflexivity|]. split; [reflexivity|].
  apply (add_record_extends_chain (firstn 2 demo_records)
           "P001" "D002" "Diabetes|Metformin" fresh_world);
    reflexivity.
Defined.

(** C7.  [save_chain] never raises: in every world it returns a
    boolean, and that boolean is false exactly when the save fails; when
    it is true the primary artifact holds the chain.  [add_record]
    returns the hash of the block it built whether or not the save
    succeeded: under any plan of I/O faults [fl] that lets the same
    chain be loaded, the value returned is the one returned in [w]. *)
Theorem add_record_hash_despite_save_failure
    (pid did trt : string) (w : world) (fl : list fault) :
  loaded (set_faults fl w) = loaded w ->
  (forall chain w0, exists ok w',
      save_chain chain w0 = (Ok ok, w') /\
      ok = negb (save_fails w0) /\
      (ok = true -> files w' !! BLOCKCHAIN_FILE = Some (json_dump chain))) /\
  result (add_record pid did trt) (set_faults fl w) =
    Ok (hash (appended pid did trt w)) /\
  result (add_record pid did trt) w = Ok (hash (appended pid did trt w)).
Proof.
  intros Hl. split; [|split].
  - intros chain w0. apply save_chain_fails.
  - destruct (add_record_run pid did trt (set_faults fl w))
      as (_ & _ & _ & _ & Hr & _).
    rewrite Hr. unfold appended, base_chain. rewrite Hl. reflexivity.
  - destruct (add_record_run pid did trt w) as (_ & _ & _ & _ & Hr & _).
    exact Hr.
Qed.

(** With the first file operation denied the save fails and returns
    false, yet the hash returned by [add_record] is the one returned
    when the save succeeds. *)
Lemma add_record_hash_despite_save_failure_witness :
  loaded (set_faults [Deny] fresh_world) = loaded fresh_world /\
  save_fails (set_faults [Deny] fresh_world) = true /\
  result (save_chain demo_chain) (set_faults [Deny] fresh_world) = Ok false /\
  (forall chain w0, exists ok w',
      save_chain chain w0 = (Ok ok, w') /\
      ok = negb (save_fails w0) /\
      (ok = true -> files w' !! BLOCKCHAIN_FILE = Some (json_dump chain))) /\
  result (add_record "P001" "D001" "Fever|Paracetamol")
         (set_faults [Deny] fresh_world) =
    Ok (hash (appended "P001" "D001" "Fever|Paracetamol" fresh_world)) /\
  result (add_record "P001" "D001" "Fever|Paracetamol") fresh_world =
    Ok (hash (appended "P001" "D001" "Fever|Paracetamol" fresh_world)).
Proof.
  pose proof (add_record_hash_despite_save_failure
                "P001" "D001" "Fever|Paracetamol" fresh_world [Deny] eq_refl)
    as H.
  split; [reflexivity|]. split; [reflexivity|].
  split; [|exact H].
  destruct H as [Hs _].
  destruct (Hs demo_chain (set_faults [Deny] fresh_world))
    as (ok & w' & E & -> & _).
  unfold result. rewrite E. reflexivity.
Defined.

(** ** Backup and rollback *)

(** A successful rollback writes the backup's content to the primary
    artifact. *)
Lemma rollback_to_backup_run (w w' : world) :
  rollback_to_backup w = (Ok true, w') ->
  exists d, files w !! BACKUP_FILE = Some d /\
            files w' = <[BLOCKCHAIN_FILE := d]> (files w).
Proof.
  destruct w as [fs lg ck tk fl].
  unfold rollback_to_backup. unfold_io.
  case_bool_decide as Hex; simpl; [|discriminate].
  destruct (fs !! BACKUP_FILE) as [d|] eqn:E;
    [|destruct Hex as [? ?]; discriminate].
  destruct fl as [|[| |s1] [|[| |s2] fl]]; simpl; rewrite ?E; simpl;
    try discriminate;
    match goal with
    | |- context [log_operation ?m ?w0] =>
        destruct (log_operation_run m w0) as (w1 & -> & Hfs & _)
    end;
    simpl; intros [= <-]; exists d; rewrite Hfs; auto.
Qed.

(** X11.  The order inside [save_chain]: when the write of the primary
    artifact is refused, the backup has already been taken. *)
Lemma save_chain_backup_first (c : list block) (w : world) (d : file_data) :
  files w !! BLOCKCHAIN_FILE = Some d ->
  faults w = [Pass; Pass; Deny] ->
  result (save_chain c) w = Ok false /\
  files (after (save_chain c) w) !! BACKUP_FILE = Some d /\
  files (after (save_chain c) w) !! BLOCKCHAIN_FILE = Some d.
Proof.
  destruct w as [fs lg ck tk fl]. simpl. intros E ->.
  unfold save_chain. unfold_io.
  case_bool_decide as Hex; simpl; [|exfalso; apply Hex; eauto].
  rewrite E. simpl. by simplify_map_eq.
Qed.

(** C8.  A successful [save_chain] leaves the previous content of the
    primary artifact in the backup.  After two successful saves, of [c1]
    and then of [c2], a successful [rollback_to_backup] leaves in the
    primary artifact exactly what the first save wrote, and
    [verify_chain] returns on the restored artifact what it returns
    after the first save. *)
Theorem backup_round_trip (c1 c2 : list block) (w0 w1 w2 w3 : world) :
  save_chain c1 w0 = (Ok true, w1) ->
  save_chain c2 w1 = (Ok true, w2) ->
  rollback_to_backup w2 = (Ok true, w3) ->
  (forall d, files w0 !! BLOCKCHAIN_FILE = Some d ->
             files w1 !! BACKUP_FILE = Some d) /\
  files w1 !! BLOCKCHAIN_FILE = Some (json_dump c1) /\
  files w2 !! BACKUP_FILE = Some (json_dump c1) /\
  files w2 !! BLOCKCHAIN_FILE = Some (json_dump c2) /\
  files w3 !! BLOCKCHAIN_FILE = Some (json_dump c1) /\
  (forall fl, result verify_chain (set_faults fl w3) =
              result verify_chain (set_faults fl w1)).
Proof.
  intros E1 E2 E3.
  destruct (save_chain_run c1 w0) as (ok1 & w1' & E1' & _ & H1 & _).
  rewrite E1 in E1'. injection E1' as <- <-. specialize (H1 eq_refl).
  destruct (save_chain_run c2 w1) as (ok2 & w2' & E2' & _ & H2 & _).
  rewrite E2 in E2'. injection E2' as <- <-. specialize (H2 eq_refl).
  destruct (rollback_to_backup_run w2 w3 E3) as (d & Hd & H3).
  assert (P1 : files w1 !! BLOCKCHAIN_FILE = Some (json_dump c1)).
  { rewrite H1. apply lookup_insert_eq. }
  assert (B2 : files w2 !! BACKUP_FILE = Some (json_dump c1)).
  { rewrite H2. unfold backed_up. rewrite P1. by simplify_map_eq. }
  assert (P3 : files w3 !! BLOCKCHAIN_FILE = Some (json_dump c1)).
  { rewrite H3, lookup_insert_eq. congruence. }
  repeat split; auto.
  - intros d0 Hd0. rewrite H1. unfold backed_up. rewrite Hd0.
    by simplify_map_eq.
  - rewrite H2. apply lookup_insert_eq.
  - intros fl. rewrite !verify_chain_result. do 3 f_equal.
    apply loaded_ext; simpl; congruence.
Qed.

Lemma backup_round_trip_witness :
  let w1 := after (save_chain (firstn 2 demo_chain)) fresh_world in
  let w2 := after (save_chain demo_chain) w1 in
  let w3 := after rollback_to_backup w2 in
  files w3 !! BLOCKCHAIN_FILE = Some (json_dump (firstn 2 demo_chain)) /\
  result verify_chain w1 = Ok true /\
  result verify_chain w3 = result verify_chain w1.
Proof.
  intros w1 w2 w3.
  destruct (backup_round_trip (firstn 2 demo_chain) demo_chain
              fresh_world w1 w2 w3)
    as (_ & _ & _ & _ & H & Hv).
  - apply run_result. vm_compute. reflexivity.
  - apply run_result. vm_compute. reflexivity.
  - apply run_result. vm_compute. reflexivity.
  - split; [exact H|]. split; [vm_compute; reflexivity|].
    exact (Hv []).
Defined.

(** ** get_recent_records *)

(** X21.  For a count of at least one, [get_recent_records] returns the last
    [n] blocks, the whole chain when it is shorter. *)
Lemma get_recent_records_positive (n : nat) (w : world) :
  (1 <= n)%nat ->
  result (get_recent_records (Z.of_nat n)) w = Ok (last_blocks n (loaded w)).
Proof.
  intros Hn. rewrite get_recent_records_result. f_equal.
  unfold last_blocks, slice_from.
  destruct (Z.geb_spec (Z.of_nat (length (loaded w))) (Z.of_nat n)) as [Hge|Hlt].
  - destruct (Z.ltb_spec (- Z.of_nat n) 0) as [_|?]; [|lia].
    f_equal. lia.
  - replace (length (loaded w) - n)%nat with 0%nat by lia. reflexivity.
Qed.

Lemma recent_records_of_zero (w : world) :
  result (get_recent_records 0) w = Ok (loaded w).
Proof.
  rewrite get_recent_records_result. f_equal.
  destruct (Z.geb_spec (Z.of_nat (length (loaded w))) 0) as [_|?]; [|lia].
  unfold slice_from. change (- 0 <? 0)%Z with false. cbv iota.
  rewrite Z.min_l by lia. reflexivity.
Qed.

(** C9 (the code departs from the claim).  For [n = 0] the last [n]
    blocks are no blocks, but [chain[-0:]] is the whole chain: on the
    chain of the demo, [get_recent_records(0)] returns all four
    blocks. *)
Theorem get_recent_records_zero_returns_all :
  result (get_recent_records 0) demo_world = Ok demo_chain /\
  length demo_chain = 4%nat /\
  last_blocks 0 demo_chain = [].
Proof. repeat split; vm_compute; reflexivity. Qed.

(** ** The genesis block is never recomputed *)

(** C10.  Two stored chains that differ in the first block only, and
    there in no field other than those that are neither [previous_hash]
    nor [hash] (in particular in [patient_id], [doctor_id], [treatment]
    or [timestamp]), get the same answer from [verify_chain] and the
    same list from [detect_tampering]. *)
Theorem genesis_content_unchecked (g g' : block) (rest : list block) (w : world) :
  previous_hash g' = previous_hash g ->
  hash g' = hash g ->
  result verify_chain (persist (g' :: rest) w) =
    result verify_chain (persist (g :: rest) w) /\
  result detect_tampering (persist (g' :: rest) w) =
    result detect_tampering (persist (g :: rest) w).
Proof.
  intros Hp Hh.
  assert (Hs : Forall (same_tests (g' :: rest) (g :: rest)) (seq 1 (length rest))).
  { apply Forall_forall. intros i Hi. apply elem_of_seq in Hi.
    apply same_tests_genesis; [exact Hh|lia]. }
  rewrite !verify_chain_result, !detect_tampering_result.
  destruct (loaded_persist_ext (g' :: rest) (g :: rest) w)
    as [[-> ->]|[-> ->]]; [|split; reflexivity].
  split; f_equal.
  - f_equal. apply check_chain_ext; auto.
  - apply detect_blocks_ext; [reflexivity|].
    replace (length (g' :: rest) - 1)%nat with (length rest) by (simpl; lia).
    exact Hs.
Qed.

(** An edit of the treatment of the genesis block of the demo chain. *)
Lemma genesis_content_unchecked_witness :
  let g := demo_chain !!! 0%nat in
  let g' := with_treatment "Ledger reset by D009" g in
  previous_hash g' = previous_hash g /\ hash g' = hash g /\
  result verify_chain (persist (g' :: tail demo_chain) fresh_world) =
    result verify_chain (persist (g :: tail demo_chain) fresh_world) /\
  result detect_tampering (persist (g' :: tail demo_chain) fresh_world) =
    result detect_tampering (persist (g :: tail demo_chain) fresh_world).
Proof.
  intros g g'. split; [reflexivity|]. split; [reflexivity|].
  apply (genesis_content_unchecked g g' (tail demo_chain) fresh_world);
    reflexivity.
Defined.

(** The edited genesis block still passes. *)
Example edited_genesis_still_verifies :
  let g' := with_treatment "Ledger reset by D009" (demo_chain !!! 0%nat) in
  result verify_chain (persist (g' :: tail demo_chain) fresh_world) = Ok true /\
  result detect_tampering (persist (g' :: tail demo_chain) fresh_world) = Ok [].
Proof. split; vm_compute; reflexivity. Qed.

(** ** Edits of a persisted block *)


(** The condition on the digests in the amended statement below cannot
    be dropped: some edit of the treatment of a record block, a hashed
    field, leaves a chain that still verifies, because two of the
    [2^256 + 1] treatments ["0"], ["1"], ... give the same digest. *)
Lemma hashed_field_edit_can_collide :
  exists (chain : list block) (b b' : block),
    chain_valid chain /\ chain !! 1%nat = Some b /\
    changed_only F_treatment b b' /\
    result verify_chain (persist (<[1%nat := b']> chain) fresh_world) = Ok true /\
    result detect_tampering (persist (<[1%nat := b']> chain) fresh_world) = Ok [].
Proof.
  set (g := genesis_block (sample_clock 0)).
  set (now := sample_clock 1).
  destruct (create_hash_collision
              (fun i => hash_input 1 "P001" "D001" (str_int (Z.of_nat i))
                                   (hash g) (t_repr now)))
    as (i & j & Hij & Hcol).
  set (b := record_block [g] "P001" "D001" (str_int (Z.of_nat i)) now).
  set (b' := with_treatment (str_int (Z.of_nat j)) b).
  assert (Hv : chain_valid [g; b]).
  { apply (chain_valid_snoc [g] g b).
    - apply chain_valid_genesis.
    - reflexivity.
    - reflexivity.
    - apply record_block_matches. }
  assert (Hv' : chain_valid [g; b']).
  { apply (chain_valid_snoc [g] g b').
    - apply chain_valid_genesis.
    - reflexivity.
    - reflexivity.
    - unfold hash_matches. exact Hcol. }
  exists [g; b], b, b'. split; [exact Hv|]. split; [reflexivity|]. split.
  - split.
    + simpl. intros [= E]. apply str_int_inj in E. lia.
    + intros f Hf. destruct f; try reflexivity. contradiction.
  - change (<[1%nat := b']> [g; b]) with [g; b'].
    rewrite verify_chain_result, detect_tampering_result.
    rewrite loaded_persist by reflexivity.
    split; f_equal.
    + apply check_chain_valid, Hv'.
    + apply detect_blocks_valid, Hv'.
Qed.




(** ** Edits that change the type of a value

    The blocks of [block] hold under each key a value of the type
    [add_record] gave it, so [changed_only] speaks of edits that keep
    the type.  On such blocks the loops on JSON values answer as
    [check_chain] and [detect_blocks] do; an edit that changes the type
    of a value can leave the hashed string as it was, or end
    [verify_chain] with a [TypeError]. *)

Section Retyped.
Implicit Types (c : list block) (rc : list raw_block) (range : list nat).

Lemma lookup_raw_of c (i : nat) :
  (i < length c)%nat -> (raw_of <$> c) !!! i = raw_of (c !!! i).
Proof. apply list_lookup_total_fmap. Qed.

Lemma raw_data_of (b : block) : raw_data (raw_of b) = block_data b.
Proof. reflexivity. Qed.

Lemma verify_raw_blocks_typed c range :
  Forall (fun i => (i < length c)%nat) range ->
  verify_raw_blocks (raw_of <$> c) range =
  Returns (verdict_bool (verify_blocks c range)).
Proof.
  induction range as [|i range IH]; intros Hr; [reflexivity|].
  apply Forall_cons in Hr as [Hi Hr].
  cbn [verify_raw_blocks verify_blocks].
  rewrite !lookup_raw_of by lia.
  rewrite raw_data_of. cbn [raw_of j_previous_hash j_hash py_eq sliceable].
  destruct (String.eqb (previous_hash (c !!! i)) (hash (c !!! (i - 1)%nat)));
    [|reflexivity].
  destruct (String.eqb (create_hash (block_data (c !!! i))) (hash (c !!! i)));
    [|reflexivity].
  exact (IH Hr).
Qed.

Lemma detect_raw_fold_typed c range acc :
  Forall (fun i => (i < length c)%nat) range ->
  fold_left (detect_raw_step (raw_of <$> c)) range (raw_report_of <$> acc) =
  raw_report_of <$> fold_left (detect_step c) range acc.
Proof.
  revert acc. induction range as [|i range IH]; intros acc Hr; [reflexivity|].
  apply Forall_cons in Hr as [Hi Hr].
  cbn [fold_left]. rewrite <- (IH _ Hr). f_equal.
  unfold detect_raw_step, detect_step.
  rewrite !lookup_raw_of by lia.
  rewrite raw_data_of. cbn [raw_of j_previous_hash j_hash py_eq].
  destruct (String.eqb (create_hash (block_data (c !!! i))) (hash (c !!! i)));
    destruct (String.eqb (previous_hash (c !!! i))
                         (hash (c !!! (i - 1)%nat)));
    cbn [negb]; rewrite ?fmap_app; reflexivity.
Qed.

Lemma range_inside (n : nat) :
  Forall (fun i => (i < n)%nat) (seq 1 (n - 1)).
Proof. apply Forall_forall. intros i Hi. apply elem_of_seq in Hi. lia. Qed.

(** On the blocks [json.dump] wrote, the loops on JSON values answer
    as the loops on [block] do. *)
Lemma checks_on_typed_blocks c :
  verify_loaded (raw_of <$> c) = Returns (verdict_bool (check_chain c)) /\
  detect_loaded (raw_of <$> c) = raw_report_of <$> detect_blocks c.
Proof.
  split.
  - destruct c as [|g rest]; [reflexivity|].
    unfold verify_loaded, check_chain.
    change (raw_of <$> g :: rest) with (raw_of g :: (raw_of <$> rest)).
    cbn [raw_of j_previous_hash py_eq].
    destruct (String.eqb (previous_hash g) zeros64); [|reflexivity].
    cbn [negb].
    change (raw_of g :: (raw_of <$> rest)) with (raw_of <$> g :: rest).
    rewrite length_fmap. apply verify_raw_blocks_typed, range_inside.
  - unfold detect_loaded, detect_blocks. rewrite length_fmap.
    apply (detect_raw_fold_typed c _ []), range_inside.
Qed.

Lemma verify_raw_blocks_ext rc rc' range :
  Forall (fun i => raw_view (rc !!! i) = raw_view (rc' !!! i) /\
                   j_hash (rc !!! (i - 1)%nat) = j_hash (rc' !!! (i - 1)%nat))
         range ->
  verify_raw_blocks rc range = verify_raw_blocks rc' range.
Proof.
  induction range as [|i range IH]; intros Hr; [reflexivity|].
  apply Forall_cons in Hr as [[Hv Hp] Hr].
  unfold raw_view in Hv. injection Hv as H1 H2 H3.
  cbn [verify_raw_blocks]. rewrite H1, H2, H3, Hp, (IH Hr). reflexivity.
Qed.

Lemma detect_raw_fold_ext rc rc' range acc :
  Forall (fun i => raw_view (rc !!! i) = raw_view (rc' !!! i) /\
                   j_hash (rc !!! (i - 1)%nat) = j_hash (rc' !!! (i - 1)%nat))
         range ->
  fold_left (detect_raw_step rc) range acc =
  fold_left (detect_raw_step rc') range acc.
Proof.
  revert acc. induction range as [|i range IH]; intros acc Hr; [reflexivity|].
  apply Forall_cons in Hr as [[Hv Hp] Hr].
  unfold raw_view in Hv. injection Hv as H1 H2 H3.
  cbn [fold_left]. rewrite (IH _ Hr). f_equal.
  unfold detect_raw_step. rewrite H1, H2, H3, Hp. reflexivity.
Qed.

(** The loops read of each block its [previous_hash], its [hash] and
    the hashed string, and nothing else. *)
Lemma checks_read_the_view rc rc' :
  length rc = length rc' ->
  (forall j, raw_view (rc !!! j) = raw_view (rc' !!! j)) ->
  verify_loaded rc = verify_loaded rc' /\ detect_loaded rc = detect_loaded rc'.
Proof.
  intros Hlen Hv.
  assert (Hall : forall range,
    Forall (fun i => raw_view (rc !!! i) = raw_view (rc' !!! i) /\
                     j_hash (rc !!! (i - 1)%nat) = j_hash (rc' !!! (i - 1)%nat))
           range).
  { intros range. apply Forall_forall. intros i _. split; [apply Hv|].
    specialize (Hv (i - 1)%nat). unfold raw_view in Hv. congruence. }
  split.
  - destruct rc as [|g rest], rc' as [|g' rest']; try discriminate;
      [reflexivity|].
    unfold verify_loaded. rewrite Hlen.
    pose proof (Hv 0%nat) as H0. unfold raw_view in H0. simpl in H0.
    injection H0 as -> _ _.
    destruct (negb (py_eq (j_previous_hash g') (JStr zeros64)));
      [reflexivity|].
    apply verify_raw_blocks_ext, Hall.
  - unfold detect_loaded. rewrite Hlen. apply detect_raw_fold_ext, Hall.
Qed.

Lemma verify_raw_blocks_app rc range1 range2 :
  verify_raw_blocks rc (range1 ++ range2) =
  match verify_raw_blocks rc range1 with
  | Returns true => verify_raw_blocks rc range2
  | r => r
  end.
Proof.
  induction range1 as [|i range1 IH]; [reflexivity|].
  cbn [app verify_raw_blocks].
  destruct (negb (py_eq (j_previous_hash (rc !!! i))
                        (j_hash (rc !!! (i - 1)%nat)))).
  - destruct (sliceable _ && sliceable _); reflexivity.
  - destruct (negb (py_eq _ (j_hash (rc !!! i)))).
    + destruct (sliceable _); reflexivity.
    + exact IH.
Qed.

End Retyped.

(** Writing the index of a stored block as a string, [1] as ["1"],
    changes the value under a hashed key and leaves the hashed string
    as it was: both checks answer as before the edit, so on a chain
    that satisfies the invariants [verify_chain] returns true and
    [detect_tampering] reports nothing. *)
Lemma retyped_index_undetected (c : list block) (i : nat) (b : block) :
  c !! i = Some b ->
  let b' := with_j_index (JStr (str_int (index b))) (raw_of b) in
  j_index b' <> j_index (raw_of b) /\
  raw_data b' = raw_data (raw_of b) /\
  verify_loaded (<[i := b']> (raw_of <$> c)) =
    Returns (verdict_bool (check_chain c)) /\
  detect_loaded (<[i := b']> (raw_of <$> c)) =
    raw_report_of <$> detect_blocks c.
Proof.
  intros Hb b'.
  split; [discriminate|]. split; [reflexivity|].
  destruct (checks_on_typed_blocks c) as [<- <-].
  apply checks_read_the_view; [apply length_insert|].
  intros j. destruct (decide (i = j)) as [<-|Hne].
  - rewrite list_lookup_total_insert_eq
      by (rewrite length_fmap; eapply lookup_lt_Some; eauto).
    rewrite lookup_raw_of by (eapply lookup_lt_Some; eauto).
    rewrite (list_lookup_total_correct _ _ _ Hb). reflexivity.
  - rewrite list_lookup_total_insert_ne by exact Hne. reflexivity.
Qed.

Lemma retyped_index_undetected_witness :
  let b := demo_chain !!! 1%nat in
  let b' := with_j_index (JStr (str_int (index b))) (raw_of b) in
  j_index b' = JStr "1" /\ j_index (raw_of b) = JInt 1 /\
  verify_loaded (<[1%nat := b']> (raw_of <$> demo_chain)) = Returns true /\
  detect_loaded (<[1%nat := b']> (raw_of <$> demo_chain)) = [].
Proof.
  intros b b'.
  destruct (retyped_index_undetected demo_chain 1 b eq_refl)
    as (_ & _ & Hv & Hd).
  split; [reflexivity|]. split; [reflexivity|].
  split; [eapply eq_trans; [exact Hv|]|eapply eq_trans; [exact Hd|]];
    vm_compute; reflexivity.
Defined.

(** Giving the [hash] of a block other than the first a value that is
    not a string (an integer, a boolean, [null]) does not make
    [verify_chain] return false on a chain that satisfied the
    invariants: the recomputed digest differs from the value, and the
    slice [current_block['hash'][:16]] in the message raises a
    [TypeError] that nothing catches. *)
Lemma retyped_hash_raises (c : list block) (i : nat) (v : jvalue) :
  chain_valid c -> (1 <= i < length c)%nat -> sliceable v = false ->
  verify_loaded (<[i := with_j_hash v (raw_of (c !!! i))]> (raw_of <$> c)) =
    Raises_TypeError.
Proof.
  intros Hvalid Hi Hv.
  apply check_chain_valid in Hvalid.
  destruct c as [|g rest]; [simpl in Hi; lia|].
  destruct i as [|i']; [lia|].
  unfold check_chain in Hvalid.
  change (raw_of <$> g :: rest) with (raw_of g :: (raw_of <$> rest)).
  change (<[S i' := ?x]> (raw_of g :: ?l)) with (raw_of g :: <[i' := x]> l).
  unfold verify_loaded.
  cbn [raw_of j_previous_hash py_eq].
  destruct (String.eqb (previous_hash g) zeros64); [|discriminate].
  cbn [negb] in *.
  change (raw_of g :: <[i' := ?x]> (raw_of <$> rest))
    with (<[S i' := x]> (raw_of <$> g :: rest)).
  rewrite length_insert, length_fmap.
  apply verify_blocks_true in Hvalid.
  set (n := length (g :: rest)) in *.
  replace (n - 1)%nat with (i' + S (n - 1 - S i'))%nat in * by lia.
  rewrite seq_app in *. apply Forall_app in Hvalid as [Hbefore Hrest].
  rewrite verify_raw_blocks_app.
  set (rc' := <[S i' := _]> _).
  assert (Hpre : verify_raw_blocks rc' (seq 1 i') = Returns true).
  { rewrite (verify_raw_blocks_ext rc' (raw_of <$> g :: rest)).
    - rewrite verify_raw_blocks_typed.
      + apply verify_blocks_true in Hbefore. rewrite Hbefore. reflexivity.
      + apply Forall_forall. intros j Hj. apply elem_of_seq in Hj.
        fold n. lia.
    - apply Forall_forall. intros j Hj. apply elem_of_seq in Hj.
      subst rc'. rewrite !list_lookup_total_insert_ne by lia. auto. }
  rewrite Hpre. cbn [Nat.add seq verify_raw_blocks].
  apply Forall_cons in Hrest as [Hok _]. cbn [Nat.add] in Hok.
  unfold block_ok in Hok. apply andb_true_iff in Hok as [Hlink _].
  replace (S i' - 1)%nat with i' in * by lia.
  subst rc'.
  rewrite list_lookup_total_insert_eq by (rewrite length_fmap; fold n; lia).
  rewrite list_lookup_total_insert_ne by lia.
  rewrite lookup_raw_of by (fold n; lia).
  cbn [with_j_hash raw_of j_previous_hash j_hash py_eq].
  rewrite Hlink. cbn [negb].
  destruct v; try discriminate; reflexivity.
Qed.

Lemma retyped_hash_raises_witness :
  verify_loaded (<[2%nat := with_j_hash (JInt 0) (raw_of (demo_chain !!! 2%nat))]>
                   (raw_of <$> demo_chain)) = Raises_TypeError.
Proof.
  apply (retyped_hash_raises demo_chain 2 (JInt 0)).
  - apply check_chain_valid. vm_compute. reflexivity.
  - vm_compute. lia.
  - reflexivity.
Defined.

(** * Further properties of the ledger module *)

(** ** The shape of a hash *)

Section HashShape.
Import SHA256.

Lemma hex_digit_is_hex (d : N) : (d < 16)%N -> is_hex_digit (hex_digit d) = true.
Proof.
  intros Hd. rewrite <- (N2Nat.id d).
  assert (Hn : (N.to_nat d < 16)%nat) by lia.
  revert Hn. generalize (N.to_nat d). intros n Hn.
  do 16 (destruct n as [|n]; [reflexivity|]). lia.
Qed.

Lemma hex_shape (bs : list N) :
  Forall (fun b => (b < 256)%N) bs ->
  String.length (hex bs) = (2 * length bs)%nat /\ all_hex (hex bs) = true.
Proof.
  induction 1 as [|b bs Hb _ [IHl IHh]]; [split; reflexivity|].
  cbn [hex String.length all_hex length]. split; [lia|].
  rewrite !hex_digit_is_hex, IHh; [reflexivity| |].
  - apply N.mod_lt. discriminate.
  - apply N.Div0.div_lt_upper_bound. exact Hb.
Qed.

End HashShape.

Transparent create_hash.

(** X1.  Whatever the data, [create_hash] returns 64 characters, each a
    digit or a letter from a to f. *)
Theorem create_hash_shape (data : string) :
  String.length (create_hash data) = 64%nat /\ all_hex (create_hash data) = true.
Proof.
  unfold create_hash, SHA256.hexdigest.
  destruct (hex_shape (SHA256.digest (SHA256.encode data)) (digest_small _))
    as [Hl Hh].
  rewrite digest_length in Hl. auto.
Qed.

Opaque create_hash.

(** ** What a sequence of calls stores *)

Section Content.
Implicit Types (w : world) (c chain : list block)
  (rs : list (string * string * string)).

Lemma base_chain_stored w :
  faults w = [] -> stored w <> [] -> base_chain w = stored w.
Proof.
  intros Hf Hs. unfold base_chain. rewrite (loaded_quiet w Hf).
  destruct (stored w); congruence.
Qed.

Lemma base_chain_fresh w :
  faults w = [] -> stored w = [] ->
  base_chain w = [genesis_block (clock w (ticks w))].
Proof.
  intros Hf Hs. unfold base_chain. rewrite (loaded_quiet w Hf), Hs. reflexivity.
Qed.

Lemma record_of_appended pid did trt w :
  record_of (appended pid did trt w) = (pid, did, trt).
Proof. reflexivity. Qed.

(** The chain stored after fault-free calls: the chain the first call
    extends, followed by one record block per call, in call order. *)
Lemma add_records_content rs w :
  faults w = [] ->
  exists news,
    stored (after (add_records rs) w) =
      match rs with [] => stored w | _ => base_chain w end ++ news /\
    map record_of news = rs /\
    Forall (fun b => block_type b = "MEDICAL_RECORD") news.
Proof.
  revert w. induction rs as [|[[p d] t] rs IH]; intros w Hf.
  - exists []. rewrite app_nil_r. auto.
  - rewrite add_records_cons.
    destruct (add_record_quiet p d t w Hf) as (Hf' & _ & Hs & _).
    destruct (IH _ Hf') as (news & Hst & Hmap & Hty).
    exists (appended p d t w :: news). split; [|split].
    + rewrite Hst. destruct rs as [|r rs'].
      * rewrite Hs, <- app_assoc. reflexivity.
      * rewrite base_chain_stored; [|exact Hf'|].
        -- rewrite Hs, <- app_assoc. reflexivity.
        -- rewrite Hs. intros E. apply app_eq_nil in E as [_ E]. discriminate.
    + simpl. rewrite Hmap. reflexivity.
    + constructor; [reflexivity|exact Hty].
Qed.

End Content.

(** X2.  On a ledger that already holds blocks, a fault-free [add_record]
    leaves every stored block in place and appends one block that
    carries the three arguments, the next index and the hash of the
    previous tail; the hash returned is that of the new block. *)
Theorem add_record_appends (pid did trt : string) (w : world) :
  faults w = [] -> stored w <> [] ->
  exists b tail,
    stored (after (add_record pid did trt) w) = stored w ++ [b] /\
    last (stored w) = Some tail /\
    record_of b = (pid, did, trt) /\
    index b = Z.of_nat (length (stored w)) /\
    previous_hash b = hash tail /\
    is_valid b = true /\ block_type b = "MEDICAL_RECORD" /\
    result (add_record pid did trt) w = Ok (hash b).
Proof.
  intros Hf Hs.
  destruct (add_record_quiet pid did trt w Hf) as (_ & _ & Hst & Hr).
  pose proof (base_chain_stored w Hf Hs) as Hb.
  destruct (base_chain_last w) as [tail Ht]. rewrite Hb in Ht.
  exists (appended pid did trt w), tail.
  rewrite Hst, Hb. repeat split; auto.
  - unfold appended. rewrite Hb. reflexivity.
  - unfold appended. rewrite Hb. apply record_block_link. exact Ht.
Qed.

Lemma add_record_appends_witness :
  let w := after (add_records (firstn 2 demo_records)) fresh_world in
  faults w = [] /\ stored w <> [] /\
  exists b tail,
    stored (after (add_record "P001" "D002" "Diabetes|Metformin") w) =
      stored w ++ [b] /\
    last (stored w) = Some tail /\
    record_of b = ("P001", "D002", "Diabetes|Metformin") /\
    index b = Z.of_nat (length (stored w)) /\
    previous_hash b = hash tail /\
    is_valid b = true /\ block_type b = "MEDICAL_RECORD" /\
    result (add_record "P001" "D002" "Diabetes|Metformin") w = Ok (hash b).
Proof.
  intros w.
  assert (Hf : faults w = []) by (vm_compute; reflexivity).
  assert (Hs : stored w <> []) by (vm_compute; discriminate).
  split; [exact Hf|]. split; [exact Hs|].
  exact (add_record_appends "P001" "D002" "Diabetes|Metformin" w Hf Hs).
Defined.

(** ** Looking records up *)

Section Lookup.
Implicit Types (w : world) (chain : list block) (h : string).

Lemma get_record_by_hash_result h w :
  result (get_record_by_hash h) w = Ok (first_with_hash h (loaded w)).
Proof.
  unfold result, get_record_by_hash, bind. rewrite load_chain_eq. reflexivity.
Qed.

Lemma get_patient_records_result pid w :
  result (get_patient_records pid) w =
  Ok (filter (fun blk => patient_id blk = pid) (loaded w)).
Proof.
  unfold result, get_patient_records, bind. rewrite load_chain_eq. reflexivity.
Qed.

Lemma get_doctor_records_result did w :
  result (get_doctor_records did) w =
  Ok (filter (fun blk => doctor_id blk = did) (loaded w)).
Proof.
  unfold result, get_doctor_records, bind. rewrite load_chain_eq. reflexivity.
Qed.

Lemma first_with_hash_none h chain :
  first_with_hash h chain = None <-> Forall (fun x => hash x <> h) chain.
Proof.
  induction chain as [|x chain IH]; simpl.
  - split; auto.
  - destruct (String.eqb (hash x) h) eqn:E.
    + apply String.eqb_eq in E. split; [discriminate|].
      intros H. inversion H; subst. congruence.
    + apply String.eqb_neq in E. rewrite IH. split.
      * intros H. constructor; auto.
      * intros H. inversion H; auto.
Qed.

Lemma first_with_hash_some h chain b :
  first_with_hash h chain = Some b <->
  exists pre post, chain = pre ++ b :: post /\ hash b = h /\
                   Forall (fun x => hash x <> h) pre.
Proof.
  revert b. induction chain as [|x chain IH]; intros b; simpl.
  - split; [discriminate|]. intros (pre & post & E & _).
    destruct pre; discriminate.
  - destruct (String.eqb (hash x) h) eqn:E.
    + apply String.eqb_eq in E. split.
      * intros [= <-]. exists [], chain. auto.
      * intros ([|y pre] & post & Ec & Hb & Hpre).
        -- injection Ec as -> _. reflexivity.
        -- injection Ec as -> _. inversion Hpre; subst. congruence.
    + apply String.eqb_neq in E. rewrite IH. split.
      * intros (pre & post & -> & Hb & Hpre).
        exists (x :: pre), post. auto.
      * intros ([|y pre] & post & Ec & Hb & Hpre).
        -- injection Ec as -> _. congruence.
        -- injection Ec as -> ->. inversion Hpre; subst. eauto.
Qed.

End Lookup.

(** X3.  [get_record_by_hash] returns nothing exactly when no loaded block
    carries the hash asked for, and otherwise the earliest block that
    carries it. *)
Theorem get_record_by_hash_earliest (h : string) (w : world) :
  exists r, result (get_record_by_hash h) w = Ok r /\
    (r = None <-> Forall (fun x => hash x <> h) (loaded w)) /\
    (forall b, r = Some b <->
       exists pre post, loaded w = pre ++ b :: post /\ hash b = h /\
                        Forall (fun x => hash x <> h) pre).
Proof.
  exists (first_with_hash h (loaded w)).
  split; [apply get_record_by_hash_result|].
  split; [apply first_with_hash_none|].
  intros b. apply first_with_hash_some.
Qed.

(** X4.  The hash a fault-free [add_record] returns can be looked up at
    once: [get_record_by_hash] finds a block with that hash, and it is
    the record just added unless a block stored before carries the same
    hash. *)
Theorem add_record_then_lookup (pid did trt : string) (w : world) :
  faults w = [] ->
  exists h found,
    result (add_record pid did trt) w = Ok h /\
    result (get_record_by_hash h) (after (add_record pid did trt) w) =
      Ok (Some found) /\
    hash found = h /\
    (Forall (fun x => hash x <> h) (stored w) ->
     h <> hash (genesis_block (clock w (ticks w))) ->
     record_of found = (pid, did, trt)).
Proof.
  intros Hf.
  destruct (add_record_quiet pid did trt w Hf) as (Hf' & Hl & Hst & Hr).
  set (blk := appended pid did trt w) in *.
  destruct (first_with_hash (hash blk)
              (loaded (after (add_record pid did trt) w))) as [found|] eqn:E.
  - exists (hash blk), found. split; [exact Hr|].
    rewrite get_record_by_hash_result, E. split; [reflexivity|].
    apply first_with_hash_some in E as (pre & post & Ec & Hh & Hpre).
    split; [exact Hh|]. intros Hold Hgen.
    rewrite (loaded_quiet _ Hf'), Hst in Ec.
    assert (Hbase : Forall (fun x => hash x <> hash blk) (base_chain w)).
    { unfold base_chain. rewrite Hl.
      destruct (stored w) as [|x c] eqn:Es; [|exact Hold].
      constructor; [|constructor]. congruence. }
    assert (Hnot : ~ In found (base_chain w)).
    { intros Hin. rewrite Forall_forall in Hbase.
      apply (Hbase found); [apply list_elem_of_In; exact Hin|exact Hh]. }
    assert (Hin : In found (base_chain w ++ [blk])).
    { rewrite Ec. apply in_or_app. right. left. reflexivity. }
    apply in_app_or in Hin as [Hin|[<-|[]]]; [contradiction|reflexivity].
  - exfalso. apply first_with_hash_none in E.
    rewrite (loaded_quiet _ Hf'), Hst in E.
    apply Forall_app in E as [_ E]. inversion E; subst. congruence.
Qed.

Lemma add_record_then_lookup_witness :
  faults fresh_world = [] /\
  exists h found,
    result (add_record "P001" "D001" "Fever|Paracetamol") fresh_world = Ok h /\
    result (get_record_by_hash h)
           (after (add_record "P001" "D001" "Fever|Paracetamol") fresh_world) =
      Ok (Some found) /\
    hash found = h /\
    (Forall (fun x => hash x <> h) (stored fresh_world) ->
     h <> hash (genesis_block (clock fresh_world (ticks fresh_world))) ->
     record_of found = ("P001", "D001", "Fever|Paracetamol")).
Proof.
  split; [reflexivity|].
  apply (add_record_then_lookup "P001" "D001" "Fever|Paracetamol" fresh_world).
  reflexivity.
Defined.

(** ** Queries by patient and by doctor *)

Section ById.
Implicit Types (w : world) (rs : list (string * string * string)).

Lemma filter_record_of (P : string * string * string -> Prop)
    `{!forall r, Decision (P r)} (l : list block) :
  map record_of (filter (fun b => P (record_of b)) l) =
  filter P (map record_of l).
Proof.
  induction l as [|b l IH]; [reflexivity|].
  simpl map. rewrite !filter_cons.
  destruct (decide (P (record_of b))); simpl; rewrite IH; reflexivity.
Qed.

Lemma filter_by_patient pid (l : list block) :
  map record_of (filter (fun blk => patient_id blk = pid) l) =
  filter (fun r => r.1.1 = pid) (map record_of l).
Proof. exact (filter_record_of (fun r => r.1.1 = pid) l). Qed.

Lemma filter_by_doctor did (l : list block) :
  map record_of (filter (fun blk => doctor_id blk = did) l) =
  filter (fun r => r.1.2 = did) (map record_of l).
Proof. exact (filter_record_of (fun r => r.1.2 = did) l). Qed.

(** The chain stored after fault-free calls on an empty ledger. *)
Lemma add_records_from_empty rs w :
  stored w = [] -> faults w = [] ->
  exists news,
    loaded (after (add_records rs) w) =
      match rs with
      | [] => []
      | _ => [genesis_block (clock w (ticks w))]
      end ++ news /\
    map record_of news = rs /\
    Forall (fun b => block_type b = "MEDICAL_RECORD") news.
Proof.
  intros Hs Hf.
  assert (Hi : indexed (stored w)) by (rewrite Hs; intros j b; discriminate).
  destruct (add_records_quiet rs w Hf Hi) as (Hf' & _ & _).
  destruct (add_records_content rs w Hf) as (news & Hst & Hm & Hty).
  exists news. rewrite (loaded_quiet _ Hf'), Hst. split; [|auto].
  destruct rs; [rewrite Hs; reflexivity|].
  rewrite (base_chain_fresh w Hf Hs). reflexivity.
Qed.

End ById.

(** X5.  After fault-free calls of [add_record] on an empty ledger,
    [get_patient_records] returns, in call order, exactly the records
    added for that patient.  The genesis block is not filtered out: it
    comes first when the identifier asked for is "GENESIS". *)
Theorem patient_records_after_calls
    (rs : list (string * string * string)) (pid : string) (w : world) :
  stored w = [] -> faults w = [] ->
  exists l,
    result (get_patient_records pid) (after (add_records rs) w) = Ok l /\
    (pid <> "GENESIS" ->
     map record_of l = filter (fun r => r.1.1 = pid) rs) /\
    (pid = "GENESIS" -> rs <> [] ->
     map record_of l =
       ("GENESIS", "SYSTEM", "Blockchain initialized")
       :: filter (fun r => r.1.1 = pid) rs).
Proof.
  intros Hs Hf.
  destruct (add_records_from_empty rs w Hs Hf) as (news & Hl & Hm & _).
  eexists. split; [apply get_patient_records_result|].
  rewrite Hl, filter_app, map_app.
  rewrite (filter_by_patient pid news), Hm.
  split.
  - intros Hne. destruct rs; [reflexivity|].
    rewrite filter_cons_False by (simpl; congruence). reflexivity.
  - intros -> Hne. destruct rs; [congruence|].
    rewrite filter_cons_True by reflexivity. reflexivity.
Qed.

Lemma patient_records_after_calls_witness :
  stored fresh_world = [] /\ faults fresh_world = [] /\
  exists l,
    result (get_patient_records "P001")
           (after (add_records demo_records) fresh_world) = Ok l /\
    ("P001" <> "GENESIS" ->
     map record_of l = filter (fun r => r.1.1 = "P001") demo_records) /\
    ("P001" = "GENESIS" -> demo_records <> [] ->
     map record_of l =
       ("GENESIS", "SYSTEM", "Blockchain initialized")
       :: filter (fun r => r.1.1 = "P001") demo_records).
Proof.
  split; [reflexivity|]. split; [reflexivity|].
  apply (patient_records_after_calls demo_records "P001" fresh_world);
    reflexivity.
Defined.

(** X6.  After fault-free calls of [add_record] on an empty ledger,
    [get_doctor_records] returns, in call order, exactly the records
    added by that doctor.  The genesis block is not filtered out: it
    comes first when the identifier asked for is "SYSTEM". *)
Theorem doctor_records_after_calls
    (rs : list (string * string * string)) (did : string) (w : world) :
  stored w = [] -> faults w = [] ->
  exists l,
    result (get_doctor_records did) (after (add_records rs) w) = Ok l /\
    (did <> "SYSTEM" ->
     map record_of l = filter (fun r => r.1.2 = did) rs) /\
    (did = "SYSTEM" -> rs <> [] ->
     map record_of l =
       ("GENESIS", "SYSTEM", "Blockchain initialized")
       :: filter (fun r => r.1.2 = did) rs).
Proof.
  intros Hs Hf.
  destruct (add_records_from_empty rs w Hs Hf) as (news & Hl & Hm & _).
  eexists. split; [apply get_doctor_records_result|].
  rewrite Hl, filter_app, map_app.
  rewrite (filter_by_doctor did news), Hm.
  split.
  - intros Hne. destruct rs; [reflexivity|].
    rewrite filter_cons_False by (simpl; congruence). reflexivity.
  - intros -> Hne. destruct rs; [congruence|].
    rewrite filter_cons_True by reflexivity. reflexivity.
Qed.

Lemma doctor_records_after_calls_witness :
  stored fresh_world = [] /\ faults fresh_world = [] /\
  exists l,
    result (get_doctor_records "D001")
           (after (add_records demo_records) fresh_world) = Ok l /\
    ("D001" <> "SYSTEM" ->
     map record_of l = filter (fun r => r.1.2 = "D001") demo_records) /\
    ("D001" = "SYSTEM" -> demo_records <> [] ->
     map record_of l =
       ("GENESIS", "SYSTEM", "Blockchain initialized")
       :: filter (fun r => r.1.2 = "D001") demo_records).
Proof.
  split; [reflexivity|]. split; [reflexivity|].
  apply (doctor_records_after_calls demo_records "D001" fresh_world);
    reflexivity.
Defined.

(** ** Statistics *)

Section Statistics.
Implicit Types (w : world) (chain : list block)
  (rs : list (string * string * string)).

Lemma load_chain_quiet_eq w :
  faults w = [] -> load_chain w = (Ok (stored w), w).
Proof.
  intros Hf. rewrite load_chain_eq.
  destruct (load_chain_quiet w Hf) as [-> ->]. reflexivity.
Qed.

(** Without I/O faults [verify_chain] judges the stored chain and
    leaves the artifacts and the fault plan as they are. *)
Lemma verify_chain_quiet w :
  faults w = [] ->
  exists w', verify_chain w = (Ok (verdict_bool (check_chain (stored w))), w') /\
             files w' = files w /\ faults w' = [].
Proof.
  intros Hf. unfold verify_chain.
  rewrite (bind_ok _ _ _ _ _ (load_chain_quiet_eq w Hf)).
  destruct (check_chain (stored w)); try (eexists; split; [reflexivity|auto]).
  unfold bind.
  match goal with
  | |- context [log_operation ?m ?w0] =>
      destruct (log_operation_run m w0) as (w' & -> & Hfs & _ & Hfl)
  end.
  eexists. split; [reflexivity|auto].
Qed.

Lemma collect_ids_fold chain (P D : gset string) :
  fold_left collect_ids chain (P, D) =
  (list_to_set (map patient_id
     (filter (fun b => block_type b <> "GENESIS") chain)) ∪ P,
   list_to_set (map doctor_id
     (filter (fun b => block_type b <> "GENESIS") chain)) ∪ D).
Proof.
  revert P D. induction chain as [|b chain IH]; intros P D.
  - simpl. f_equal; set_solver.
  - cbn [fold_left]. unfold collect_ids at 2. rewrite filter_cons.
    destruct (String.eqb (block_type b) "GENESIS") eqn:E; simpl negb; cbv iota.
    + apply String.eqb_eq in E.
      destruct (decide (block_type b <> "GENESIS")); [contradiction|]. apply IH.
    + apply String.eqb_neq in E.
      destruct (decide (block_type b <> "GENESIS")); [|contradiction].
      rewrite IH. simpl. f_equal; set_solver.
Qed.

(** The dictionary built for a non-empty stored chain, without I/O
    faults. *)
Lemma get_chain_stats_quiet w b chain :
  faults w = [] -> files w !! BLOCKCHAIN_FILE = Some (JsonText (b :: chain)) ->
  result get_chain_stats w =
  Ok {| total_blocks := length (b :: chain);
        stats_is_valid := verdict_bool (check_chain (b :: chain));
        first_block := Some (time_readable b);
        last_block := time_readable <$> last (b :: chain);
        total_patients :=
          size (list_to_set (map patient_id
                  (filter (fun x => block_type x <> "GENESIS") (b :: chain)))
                : gset string);
        total_doctors :=
          size (list_to_set (map doctor_id
                  (filter (fun x => block_type x <> "GENESIS") (b :: chain)))
                : gset string);
        stats_genesis_block := Some b;
        chain_size_kb := Some (Size_of (JsonText (b :: chain))) |}.
Proof.
  intros Hf Hfile.
  assert (Hst : stored w = b :: chain) by (unfold stored; rewrite Hfile; reflexivity).
  unfold result, get_chain_stats.
  rewrite (bind_ok _ _ _ _ _ (load_chain_quiet_eq w Hf)), Hst.
  rewrite collect_ids_fold, !union_empty_r_L.
  destruct (verify_chain_quiet w Hf) as (w' & Ev & Hfs & Hfl).
  rewrite (bind_ok _ _ _ _ _ Ev), Hst.
  unfold bind, exists_file, getsize, next_fault, ret. rewrite Hfs, Hfile.
  rewrite bool_decide_eq_true_2 by eauto. rewrite Hfl, Hfs, Hfile.
  reflexivity.
Qed.

End Statistics.

Lemma stored_file (w : world) (b : block) (chain : list block) :
  stored w = b :: chain ->
  files w !! BLOCKCHAIN_FILE = Some (JsonText (b :: chain)).
Proof.
  unfold stored. destruct (files w !! BLOCKCHAIN_FILE) as [[c|s]|];
    intros E; try discriminate. congruence.
Qed.

Lemma filter_records_only (news : list block) :
  Forall (fun b => block_type b = "MEDICAL_RECORD") news ->
  filter (fun x => block_type x <> "GENESIS") news = news.
Proof.
  induction 1 as [|b news Hb _ IH]; [reflexivity|].
  rewrite filter_cons_True by (rewrite Hb; discriminate). by rewrite IH.
Qed.

(** X7.  After fault-free calls of [add_record] on an empty ledger, at least
    one, [get_chain_stats] counts the genesis block and one block per
    call, reports the chain valid, and counts the distinct patient and
    doctor identifiers of the calls; the genesis block enters neither
    count. *)
Theorem stats_after_calls (rs : list (string * string * string)) (w : world) :
  stored w = [] -> faults w = [] -> rs <> [] ->
  exists st,
    result get_chain_stats (after (add_records rs) w) = Ok st /\
    total_blocks st = S (length rs) /\
    stats_is_valid st = true /\
    total_patients st = size (list_to_set (map (fun r => r.1.1) rs) : gset string) /\
    total_doctors st = size (list_to_set (map (fun r => r.1.2) rs) : gset string) /\
    stats_genesis_block st = Some (genesis_block (clock w (ticks w))) /\
    is_Some (chain_size_kb st).
Proof.
  intros Hs Hf Hne.
  assert (Hi : indexed (stored w)) by (rewrite Hs; intros j b; discriminate).
  destruct (add_records_quiet rs w Hf Hi) as (Hf' & _ & _).
  destruct (add_records_content rs w Hf) as (news & Hst & Hm & Hty).
  assert (Hv : chain_valid (stored (after (add_records rs) w))).
  { apply add_records_keep_valid. rewrite Hs. apply chain_valid_nil. }
  destruct rs as [|r rs]; [congruence|].
  rewrite (base_chain_fresh w Hf Hs) in Hst. simpl app in Hst.
  set (g := genesis_block (clock w (ticks w))) in *.
  rewrite Hst in Hv.
  eexists. split.
  { apply (get_chain_stats_quiet _ g news Hf'). apply stored_file, Hst. }
  cbn [total_blocks stats_is_valid total_patients total_doctors
       stats_genesis_block chain_size_kb].
  repeat split.
  - rewrite <- Hm, length_map. reflexivity.
  - apply check_chain_valid, Hv.
  - rewrite filter_cons_False by (intros H; apply H; reflexivity).
    rewrite (filter_records_only news Hty), <- Hm, map_map. reflexivity.
  - rewrite filter_cons_False by (intros H; apply H; reflexivity).
    rewrite (filter_records_only news Hty), <- Hm, map_map. reflexivity.
  - eauto.
Qed.

Lemma stats_after_calls_witness :
  stored fresh_world = [] /\ faults fresh_world = [] /\ demo_records <> [] /\
  size (list_to_set (map (fun r => r.1.1) demo_records) : gset string) = 2%nat /\
  size (list_to_set (map (fun r => r.1.2) demo_records) : gset string) = 2%nat /\
  exists st,
    result get_chain_stats (after (add_records demo_records) fresh_world) = Ok st /\
    total_blocks st = S (length demo_records) /\
    stats_is_valid st = true /\
    total_patients st =
      size (list_to_set (map (fun r => r.1.1) demo_records) : gset string) /\
    total_doctors st =
      size (list_to_set (map (fun r => r.1.2) demo_records) : gset string) /\
    stats_genesis_block st =
      Some (genesis_block (clock fresh_world (ticks fresh_world))) /\
    is_Some (chain_size_kb st).
Proof.
  split; [reflexivity|]. split; [reflexivity|]. split; [discriminate|].
  split; [vm_compute; reflexivity|]. split; [vm_compute; reflexivity|].
  apply (stats_after_calls demo_records fresh_world);
    [reflexivity|reflexivity|discriminate].
Defined.

(** X8.  On an empty ledger (no artifact, an empty or an unreadable one)
    [get_chain_stats] returns a dictionary without the key
    "chain_size_kb", and [print_chain_stats], which subscripts that key,
    ends in a [KeyError]; with a non-empty chain loaded and no I/O fault
    it runs to its end. *)
Theorem print_chain_stats_key_error (w : world) :
  (loaded w = [] ->
   result print_chain_stats w = Ok (inl (KeyError "chain_size_kb")) /\
   exists st, result get_chain_stats w = Ok st /\
              chain_size_kb st = None /\ total_blocks st = 0%nat /\
              stats_is_valid st = true) /\
  (faults w = [] -> stored w <> [] ->
   result print_chain_stats w = Ok (inr tt)).
Proof.
  split.
  - intros Hl.
    assert (E : get_chain_stats w =
                (Ok (Stats 0 true None None 0 0 None None), after load_chain w)).
    { unfold get_chain_stats.
      rewrite (bind_ok _ _ _ _ _ (load_chain_eq w)), Hl. reflexivity. }
    split.
    + unfold result, print_chain_stats.
      rewrite (bind_ok _ _ _ _ _ E). reflexivity.
    + eexists. unfold result. rewrite E. split; [reflexivity|auto].
  - intros Hf Hs. destruct (stored w) as [|b chain] eqn:E; [congruence|].
    pose proof (get_chain_stats_quiet w b chain Hf (stored_file w b chain E)) as Hr.
    unfold result in *. unfold print_chain_stats, bind.
    destruct (get_chain_stats w) as [[st|e] w']; simpl in Hr; [|discriminate].
    injection Hr as ->. reflexivity.
Qed.

Lemma print_chain_stats_key_error_witness :
  loaded fresh_world = [] /\ faults demo_world = [] /\
  stored demo_world <> [] /\
  result print_chain_stats fresh_world = Ok (inl (KeyError "chain_size_kb")) /\
  result print_chain_stats demo_world = Ok (inr tt).
Proof.
  assert (H1 : loaded fresh_world = []) by (vm_compute; reflexivity).
  assert (H2 : faults demo_world = []) by (vm_compute; reflexivity).
  assert (H3 : stored demo_world <> []) by (vm_compute; discriminate).
  split; [exact H1|]. split; [exact H2|]. split; [exact H3|]. split.
  - exact (proj1 (proj1 (print_chain_stats_key_error fresh_world) H1)).
  - exact (proj2 (print_chain_stats_key_error demo_world) H2 H3).
Defined.

(** ** More on backup and rollback *)

(** X9.  The first record of a ledger cannot be rolled back: after a
    fault-free [add_record] on a ledger with neither artifact nor
    backup there is still no backup, and [rollback_to_backup] returns
    false and changes nothing. *)
Theorem first_record_cannot_be_rolled_back (pid did trt : string) (w : world) :
  files w !! BLOCKCHAIN_FILE = None -> files w !! BACKUP_FILE = None ->
  faults w = [] ->
  let w' := after (add_record pid did trt) w in
  files w' !! BACKUP_FILE = None /\
  rollback_to_backup w' = (Ok false, w') /\
  length (stored w') = 2%nat.
Proof.
  intros Hp Hb Hf w'.
  destruct (add_record_run pid did trt w)
    as (w1 & sv & w2 & Es & _ & Hf1 & _ & Hf3 & _ & _ & Hq).
  destruct (Hq Hf) as [_ Hfl1].
  destruct (save_chain_quiet (base_chain w ++ [appended pid did trt w]) w1 Hfl1)
    as (w2' & Es' & Hfiles & _).
  rewrite Es in Es'. injection Es' as -> <-.
  fold w' in Hf3.
  assert (Hfw : files w' =
                <[BLOCKCHAIN_FILE := JsonText (base_chain w ++ [appended pid did trt w])]>
                  (files w)).
  { rewrite Hf3, Hfiles. unfold backed_up. rewrite Hf1, Hp. reflexivity. }
  assert (Hnone : files w' !! BACKUP_FILE = None).
  { rewrite Hfw. rewrite lookup_insert_ne by discriminate. exact Hb. }
  split; [exact Hnone|]. split.
  - unfold rollback_to_backup, bind, exists_file, ret. rewrite Hnone.
    rewrite bool_decide_eq_false_2 by (intros [? ?]; discriminate). reflexivity.
  - unfold stored. rewrite Hfw, lookup_insert_eq, length_app.
    rewrite base_chain_fresh; [reflexivity|exact Hf|].
    unfold stored. rewrite Hp. reflexivity.
Qed.

Lemma first_record_cannot_be_rolled_back_witness :
  let w' := after (add_record "P001" "D001" "Fever|Paracetamol") fresh_world in
  files fresh_world !! BLOCKCHAIN_FILE = None /\
  files fresh_world !! BACKUP_FILE = None /\ faults fresh_world = [] /\
  files w' !! BACKUP_FILE = None /\
  rollback_to_backup w' = (Ok false, w') /\
  length (stored w') = 2%nat.
Proof.
  intros w'. split; [reflexivity|]. split; [reflexivity|]. split; [reflexivity|].
  apply (first_record_cannot_be_rolled_back
           "P001" "D001" "Fever|Paracetamol" fresh_world); reflexivity.
Defined.

Section RollbackLog.
Implicit Types (w : world).

(** A successful rollback adds at most its one line to the audit
    log. *)
Lemma rollback_to_backup_log w w' :
  rollback_to_backup w = (Ok true, w') ->
  exists l, log w' = log w ++ l /\ (length l <= 1)%nat.
Proof.
  destruct w as [fs lg ck tk fl].
  unfold rollback_to_backup. unfold_io.
  case_bool_decide as Hex; simpl; [|discriminate].
  destruct (fs !! BACKUP_FILE) as [d|] eqn:E;
    [|destruct Hex as [? ?]; discriminate].
  destruct fl as [|[| |s1] [|[| |s2] fl]]; simpl; rewrite ?E; simpl;
    try discriminate;
    match goal with
    | |- context [log_operation ?m ?w0] =>
        destruct (log_operation_grows m w0) as (w1 & l & -> & _ & Hl & Hlen)
    end;
    simpl; intros [= <-]; exists l; auto.
Qed.

End RollbackLog.

(** X10.  Only one generation is kept: after three successful saves a
    successful rollback restores what the second save wrote, and then
    the backup holds the same chain; a second rollback leaves the
    ledger, the backup and every other artifact as they are and only
    adds its line to the audit log.  What the first save wrote is out
    of reach. *)
Theorem rollback_reaches_one_generation
    (c1 c2 c3 : list block) (w0 w1 w2 w3 w4 w5 : world) :
  save_chain c1 w0 = (Ok true, w1) ->
  save_chain c2 w1 = (Ok true, w2) ->
  save_chain c3 w2 = (Ok true, w3) ->
  rollback_to_backup w3 = (Ok true, w4) ->
  rollback_to_backup w4 = (Ok true, w5) ->
  files w4 !! BLOCKCHAIN_FILE = Some (json_dump c2) /\
  files w4 !! BACKUP_FILE = Some (json_dump c2) /\
  files w5 = files w4 /\
  exists l, log w5 = log w4 ++ l /\ (length l <= 1)%nat.
Proof.
  intros E1 E2 E3 E4 E5.
  destruct (save_chain_run c2 w1) as (ok2 & w2' & E2' & _ & H2 & _).
  rewrite E2 in E2'. injection E2' as <- <-. specialize (H2 eq_refl).
  destruct (save_chain_run c3 w2) as (ok3 & w3' & E3' & _ & H3 & _).
  rewrite E3 in E3'. injection E3' as <- <-. specialize (H3 eq_refl).
  destruct (rollback_to_backup_run w3 w4 E4) as (d & Hd & H4).
  destruct (rollback_to_backup_run w4 w5 E5) as (d' & Hd' & H5).
  assert (P2 : files w2 !! BLOCKCHAIN_FILE = Some (json_dump c2)).
  { rewrite H2. apply lookup_insert_eq. }
  assert (B3 : files w3 !! BACKUP_FILE = Some (json_dump c2)).
  { rewrite H3. unfold backed_up. rewrite P2. by simplify_map_eq. }
  assert (d = json_dump c2) as -> by congruence.
  assert (B4 : files w4 !! BACKUP_FILE = Some (json_dump c2)).
  { rewrite H4, lookup_insert_ne by discriminate. exact B3. }
  assert (d' = json_dump c2) as -> by congruence.
  split; [rewrite H4; apply lookup_insert_eq|].
  split; [exact B4|].
  split; [rewrite H5, H4; apply insert_insert_eq|].
  exact (rollback_to_backup_log w4 w5 E5).
Qed.

Lemma rollback_reaches_one_generation_witness :
  let w1 := after (save_chain (firstn 1 demo_chain)) fresh_world in
  let w2 := after (save_chain (firstn 2 demo_chain)) w1 in
  let w3 := after (save_chain demo_chain) w2 in
  let w4 := after rollback_to_backup w3 in
  let w5 := after rollback_to_backup w4 in
  files w4 !! BLOCKCHAIN_FILE = Some (json_dump (firstn 2 demo_chain)) /\
  files w4 !! BACKUP_FILE = Some (json_dump (firstn 2 demo_chain)) /\
  files w5 = files w4 /\
  exists l, log w5 = log w4 ++ l /\ (length l <= 1)%nat.
Proof.
  intros w1 w2 w3 w4 w5.
  apply (rollback_reaches_one_generation
           (firstn 1 demo_chain) (firstn 2 demo_chain) demo_chain
           fresh_world w1 w2 w3 w4 w5);
    apply run_result; vm_compute; reflexivity.
Defined.

Lemma save_chain_backup_first_witness :
  let w := set_faults [Pass; Pass; Deny] demo_world in
  files w !! BLOCKCHAIN_FILE = Some (JsonText demo_chain) /\
  faults w = [Pass; Pass; Deny] /\
  result (save_chain []) w = Ok false /\
  files (after (save_chain []) w) !! BACKUP_FILE = Some (JsonText demo_chain) /\
  files (after (save_chain []) w) !! BLOCKCHAIN_FILE = Some (JsonText demo_chain).
Proof.
  intros w.
  assert (H1 : files w !! BLOCKCHAIN_FILE = Some (JsonText demo_chain))
    by (vm_compute; reflexivity).
  split; [exact H1|]. split; [reflexivity|].
  exact (save_chain_backup_first [] w (JsonText demo_chain) H1 eq_refl).
Defined.

(** X12.  A save that reports failure has written nothing to the audit log,
    and has left in the primary artifact what was there or the
    fragment of a write that broke off. *)
Theorem failed_save_leaves_no_log (c : list block) (w w' : world) :
  save_chain c w = (Ok false, w') ->
  log w' = log w /\
  (files w' !! BLOCKCHAIN_FILE = files w !! BLOCKCHAIN_FILE \/
   exists s, files w' !! BLOCKCHAIN_FILE = Some (OtherText s)).
Proof.
  destruct w as [fs lg ck tk fl].
  unfold save_chain, backed_up. unfold_io.
  case_bool_decide as Hex; simpl.
  - destruct (fs !! BLOCKCHAIN_FILE) as [d|] eqn:E;
      [|destruct Hex as [? ?]; discriminate].
    destruct fl as [|[| |s1] [|[| |s2] [|[| |s3] fl]]]; simpl; rewrite ?E; simpl;
      try match goal with
          | |- context [log_operation ?m ?w0] =>
              destruct (log_operation_run m w0) as (w1 & -> & _)
          end;
      simpl; intros [= <-]; simpl; (split; [reflexivity|]);
      simplify_map_eq; eauto.
  - destruct (fs !! BLOCKCHAIN_FILE) as [d|] eqn:E;
      [exfalso; apply Hex; eauto|].
    destruct fl as [|[| |s1] fl]; simpl;
      try match goal with
          | |- context [log_operation ?m ?w0] =>
              destruct (log_operation_run m w0) as (w1 & -> & _)
          end;
      simpl; intros [= <-]; simpl; (split; [reflexivity|]);
      simplify_map_eq; eauto.
Qed.

Lemma failed_save_leaves_no_log_witness :
  let w := set_faults [Pass; Pass; Cut "[{"] demo_world in
  log (after (save_chain []) w) = log w /\
  (files (after (save_chain []) w) !! BLOCKCHAIN_FILE = files w !! BLOCKCHAIN_FILE \/
   exists s, files (after (save_chain []) w) !! BLOCKCHAIN_FILE = Some (OtherText s)).
Proof.
  intros w.
  apply (failed_save_leaves_no_log [] w (after (save_chain []) w)).
  apply run_result. vm_compute. reflexivity.
Defined.

(** ** Export *)

(** X13.  Without I/O faults [export_chain] writes the stored chain to the
    destination and returns true; it touches no other file, makes no
    backup, and for an unreadable primary artifact it exports the empty
    chain and still returns true. *)
Theorem export_chain_copies (filepath : string) (w : world) :
  faults w = [] ->
  let w' := after (export_chain filepath) w in
  result (export_chain filepath) w = Ok true /\
  files w' !! filepath = Some (json_dump (stored w)) /\
  (forall p, p <> filepath -> files w' !! p = files w !! p) /\
  (forall s, files w !! BLOCKCHAIN_FILE = Some (OtherText s) ->
             files w' !! filepath = Some (json_dump [])).
Proof.
  intros Hf w'.
  assert (E : export_chain filepath w =
              (Ok true, set_files (<[filepath := json_dump (stored w)]> (files w)) w)).
  { unfold export_chain.
    rewrite (bind_ok _ _ _ _ _ (load_chain_quiet_eq w Hf)).
    unfold try_except, bind, write_file, next_fault, ret. rewrite Hf. reflexivity. }
  subst w'. unfold result, after. rewrite E. simpl.
  split; [reflexivity|]. split; [apply lookup_insert_eq|]. split.
  - intros p Hp. apply lookup_insert_ne. congruence.
  - intros s Hs. rewrite lookup_insert_eq. unfold stored. rewrite Hs. reflexivity.
Qed.

Lemma export_chain_copies_witness :
  let w' := after (export_chain "audit/ledger.json") demo_world in
  faults demo_world = [] /\
  result (export_chain "audit/ledger.json") demo_world = Ok true /\
  files w' !! "audit/ledger.json" = Some (json_dump (stored demo_world)) /\
  (forall p, p <> "audit/ledger.json" -> files w' !! p = files demo_world !! p) /\
  (forall s, files demo_world !! BLOCKCHAIN_FILE = Some (OtherText s) ->
             files w' !! "audit/ledger.json" = Some (json_dump [])).
Proof.
  intros w'.
  assert (Hf : faults demo_world = []) by (vm_compute; reflexivity).
  split; [exact Hf|].
  exact (export_chain_copies "audit/ledger.json" demo_world Hf).
Defined.

(** ** What the checks cannot see *)

Section Blind.
Implicit Types (w : world) (chain : list block) (b g : block).

Lemma loaded_empty w :
  files w !! BLOCKCHAIN_FILE = None \/
  (exists s, files w !! BLOCKCHAIN_FILE = Some (OtherText s)) \/
  (exists f fl, faults w = f :: fl /\ f <> Pass) ->
  loaded w = [].
Proof.
  destruct w as [fs lg ck tk fl]. simpl.
  unfold loaded, load_chain. unfold_io.
  intros [H|[[s H]|(f & fl' & -> & Hne)]].
  - rewrite H. rewrite bool_decide_eq_false_2 by (intros [? ?]; discriminate).
    reflexivity.
  - rewrite H. rewrite bool_decide_eq_true_2 by eauto. simpl.
    destruct fl as [|[| |s1] fl]; simpl; rewrite ?H; reflexivity.
  - case_bool_decide; simpl; [|reflexivity].
    destruct f; [congruence| |]; reflexivity.
Qed.

Lemma chain_valid_prefix chain1 chain2 :
  chain_valid (chain1 ++ chain2) -> chain_valid chain1.
Proof.
  intros [Hg Hs]. split.
  - intros g H. apply Hg. apply lookup_app_l_Some. exact H.
  - intros i p b Hp Hb. apply (Hs i p b); apply lookup_app_l_Some; assumption.
Qed.

Lemma tests_unchanged_by_insert chain i b b' :
  chain !! i = Some b ->
  previous_hash b' = previous_hash b -> hash b' = hash b ->
  block_data b' = block_data b ->
  check_chain (<[i := b']> chain) = check_chain chain /\
  detect_blocks (<[i := b']> chain) = detect_blocks chain.
Proof.
  intros Hb Hp Hh Hd.
  assert (Hsame : forall j, same_tests (<[i := b']> chain) chain j).
  { intros j. apply (same_tests_insert chain i b b' j); auto. }
  destruct chain as [|g rest]; [discriminate|].
  destruct i as [|k].
  - injection Hb as ->.
    change (<[0%nat := b']> (b :: rest)) with (b' :: rest) in *. split.
    + apply check_chain_ext; auto.
      apply Forall_forall. intros j _. apply Hsame.
    + apply detect_blocks_ext; [reflexivity|].
      apply Forall_forall. intros j _. apply Hsame.
  - change (<[S k := b']> (g :: rest)) with (g :: <[k := b']> rest) in *. split.
    + apply check_chain_ext; auto.
      * apply length_insert.
      * apply Forall_forall. intros j _. apply Hsame.
    + apply detect_blocks_ext.
      * simpl. f_equal. apply length_insert.
      * apply Forall_forall. intros j _. apply Hsame.
Qed.

Lemma string_app_assoc (s t u : string) : (s +:+ t) +:+ u = s +:+ (t +:+ u).
Proof.
  induction s as [|a s IH]; [reflexivity|].
  change (String a ((s +:+ t) +:+ u) = String a (s +:+ (t +:+ u))).
  by rewrite IH.
Qed.

Lemma results_of_persist c c' w :
  check_chain c = check_chain c' -> detect_blocks c = detect_blocks c' ->
  result verify_chain (persist c w) = result verify_chain (persist c' w) /\
  result detect_tampering (persist c w) = result detect_tampering (persist c' w).
Proof.
  intros Hc Hd. rewrite !verify_chain_result, !detect_tampering_result.
  destruct (loaded_persist_ext c c' w) as [[-> ->]|[-> ->]]; [|auto].
  rewrite Hc, Hd. auto.
Qed.

End Blind.

(** X14.  An artifact that is missing, that [json.load] rejects, or whose read
    fails counts as an empty ledger: [verify_chain] returns true and
    [detect_tampering] reports nothing. *)
Theorem unreadable_ledger_verifies (w : world) :
  files w !! BLOCKCHAIN_FILE = None \/
  (exists s, files w !! BLOCKCHAIN_FILE = Some (OtherText s)) \/
  (exists f fl, faults w = f :: fl /\ f <> Pass) ->
  result verify_chain w = Ok true /\ result detect_tampering w = Ok [].
Proof.
  intros H. rewrite verify_chain_result, detect_tampering_result.
  rewrite (loaded_empty w H). split; reflexivity.
Qed.

Lemma unreadable_ledger_verifies_witness :
  let w := set_files (<[BLOCKCHAIN_FILE := OtherText "[{ index: 0,"]> ∅) fresh_world in
  result verify_chain w = Ok true /\ result detect_tampering w = Ok [].
Proof.
  intros w. apply (unreadable_ledger_verifies w).
  right. left. exists "[{ index: 0,". reflexivity.
Defined.

(** X15.  Cutting blocks off the end of a chain that satisfies the invariants
    goes unnoticed: for every prefix of it [verify_chain] returns true
    and [detect_tampering] reports nothing. *)
Theorem truncation_undetected (chain : list block) (n : nat) (w : world) :
  chain_valid chain ->
  result verify_chain (persist (take n chain) w) = Ok true /\
  result detect_tampering (persist (take n chain) w) = Ok [].
Proof.
  intros Hv.
  assert (Hp : chain_valid (take n chain)).
  { apply (chain_valid_prefix _ (drop n chain)). by rewrite take_drop. }
  rewrite verify_chain_result, detect_tampering_result.
  destruct (loaded_persist_ext (take n chain) (take n chain) w)
    as [[-> _]|[-> _]]; [|split; reflexivity].
  split; f_equal.
  - apply check_chain_valid, Hp.
  - apply detect_blocks_valid, Hp.
Qed.

Lemma truncation_undetected_witness :
  chain_valid demo_chain /\
  result verify_chain (persist (take 2 demo_chain) fresh_world) = Ok true /\
  result detect_tampering (persist (take 2 demo_chain) fresh_world) = Ok [].
Proof.
  assert (Hv : chain_valid demo_chain).
  { apply check_chain_valid. vm_compute. reflexivity. }
  split; [exact Hv|].
  exact (truncation_undetected demo_chain 2 fresh_world Hv).
Defined.

(** X16.  The hashed string does not mark where a field ends.  When the
    treatment of a stored block is [x|y], the block with [|x] added to
    the doctor and with treatment [y] has the same hashed string, so
    after this edit of two fields [verify_chain] and [detect_tampering]
    answer as before. *)
Theorem delimiter_shift_undetected
    (chain : list block) (i : nat) (b : block) (x y : string) (w : world) :
  chain !! i = Some b ->
  treatment b = x +:+ "|" +:+ y ->
  let b' := with_doctor_and_treatment (doctor_id b +:+ "|" +:+ x) y b in
  doctor_id b' <> doctor_id b /\
  block_data b' = block_data b /\
  result verify_chain (persist (<[i := b']> chain) w) =
    result verify_chain (persist chain w) /\
  result detect_tampering (persist (<[i := b']> chain) w) =
    result detect_tampering (persist chain w).
Proof.
  intros Hb Ht b'.
  assert (Hd : block_data b' = block_data b).
  { unfold block_data, hash_input. simpl. rewrite Ht.
    rewrite !string_app_assoc. reflexivity. }
  split; [|split; [exact Hd|]].
  - simpl. intros E. apply (f_equal String.length) in E.
    rewrite string_length_app in E. simpl in E. lia.
  - destruct (tests_unchanged_by_insert chain i b b' Hb eq_refl eq_refl Hd)
      as [Hc Hdt].
    apply results_of_persist; assumption.
Qed.

Lemma delimiter_shift_undetected_witness :
  let b := demo_chain !!! 1%nat in
  let b' := with_doctor_and_treatment (doctor_id b +:+ "|" +:+ "Fever")
                                      "Paracetamol" b in
  demo_chain !! 1%nat = Some b /\
  treatment b = "Fever" +:+ "|" +:+ "Paracetamol" /\
  doctor_id b' = "D001|Fever" /\ treatment b' = "Paracetamol" /\
  result verify_chain (persist (<[1%nat := b']> demo_chain) fresh_world) =
    result verify_chain (persist demo_chain fresh_world) /\
  result detect_tampering (persist (<[1%nat := b']> demo_chain) fresh_world) =
    result detect_tampering (persist demo_chain fresh_world).
Proof.
  intros b b'. split; [reflexivity|]. split; [reflexivity|].
  split; [reflexivity|]. split; [reflexivity|].
  destruct (delimiter_shift_undetected demo_chain 1 b "Fever" "Paracetamol"
              fresh_world eq_refl eq_refl) as (_ & _ & Hv & Hd).
  split; [exact Hv|exact Hd].
Defined.

(** X17.  [detect_tampering] never looks at the [previous_hash] of the first
    block.  When that field of a chain satisfying the invariants is
    edited, [verify_chain] returns false while [detect_tampering]
    reports nothing. *)
Theorem genesis_sentinel_edit_unreported
    (g : block) (rest : list block) (p : string) (w : world) :
  chain_valid (g :: rest) -> p <> zeros64 -> faults w = [] ->
  let w' := persist (with_previous_hash p g :: rest) w in
  result verify_chain w' = Ok false /\ result detect_tampering w' = Ok [].
Proof.
  intros Hv Hp Hf w'. subst w'.
  rewrite verify_chain_result, detect_tampering_result.
  rewrite loaded_persist by exact Hf. split; f_equal.
  - unfold check_chain. simpl previous_hash.
    apply String.eqb_neq in Hp. rewrite Hp. reflexivity.
  - rewrite (detect_blocks_ext _ (g :: rest)).
    + apply detect_blocks_valid, Hv.
    + reflexivity.
    + apply Forall_forall. intros i Hi. apply elem_of_seq in Hi.
      apply same_tests_genesis; [reflexivity|]. simpl in Hi. lia.
Qed.

Lemma genesis_sentinel_edit_unreported_witness :
  let g := demo_chain !!! 0%nat in
  let w' := persist (with_previous_hash "tampered" g :: tail demo_chain)
                    fresh_world in
  g :: tail demo_chain = demo_chain /\
  result verify_chain w' = Ok false /\ result detect_tampering w' = Ok [].
Proof.
  intros g w'. split; [reflexivity|].
  apply (genesis_sentinel_edit_unreported g (tail demo_chain) "tampered"
           fresh_world).
  - apply check_chain_valid. vm_compute. reflexivity.
  - discriminate.
  - reflexivity.
Defined.

(** X18.  Whenever [verify_chain] returns true, [detect_tampering] returns the
    empty list; and when [detect_tampering] returns the empty list
    although [verify_chain] returns false, the loaded chain starts with
    a block whose [previous_hash] is not 64 zeros. *)
Theorem verify_and_detect_agree (w : world) :
  (result verify_chain w = Ok true -> result detect_tampering w = Ok []) /\
  (result detect_tampering w = Ok [] -> result verify_chain w = Ok false ->
   exists g rest, loaded w = g :: rest /\ previous_hash g <> zeros64).
Proof.
  rewrite verify_chain_result, detect_tampering_result. split.
  - intros [= H]. f_equal. apply detect_blocks_valid, check_chain_valid, H.
  - intros [= Hd] [= Hv]. destruct (loaded w) as [|g rest]; [discriminate|].
    exists g, rest. split; [reflexivity|]. intros Hg.
    unfold check_chain in Hv. apply String.eqb_eq in Hg. rewrite Hg in Hv.
    simpl negb in Hv. cbv iota in Hv.
    assert (Ht : verdict_bool
                   (verify_blocks (g :: rest) (seq 1 (length (g :: rest) - 1))) = true).
    { apply verify_blocks_true. rewrite detect_blocks_discrepancies in Hd.
      revert Hd. generalize (seq 1 (length (g :: rest) - 1)).
      intros l. induction l as [|i l IH]; intros Hd; [constructor|].
      simpl in Hd. apply app_eq_nil in Hd as [Hi Hl].
      constructor; [|auto].
      unfold discrepancies in Hi. apply app_eq_nil in Hi as [H1 H2].
      revert H1 H2. unfold block_ok.
      destruct (String.eqb (create_hash (block_data ((g :: rest) !!! i)))
                           (hash ((g :: rest) !!! i)));
        destruct (String.eqb (previous_hash ((g :: rest) !!! i))
                             (hash ((g :: rest) !!! (i - 1)%nat))); simpl;
        intros H1 H2; try discriminate; reflexivity. }
    congruence.
Qed.

Lemma verify_and_detect_agree_witness :
  let w := persist [with_previous_hash "" (genesis_block (sample_clock 0))]
                   fresh_world in
  result verify_chain demo_world = Ok true /\
  result detect_tampering demo_world = Ok [] /\
  result detect_tampering w = Ok [] /\ result verify_chain w = Ok false /\
  exists g rest, loaded w = g :: rest /\ previous_hash g <> zeros64.
Proof.
  intros w.
  assert (H1 : result verify_chain demo_world = Ok true)
    by (vm_compute; reflexivity).
  assert (H2 : result detect_tampering w = Ok []) by (vm_compute; reflexivity).
  assert (H3 : result verify_chain w = Ok false) by (vm_compute; reflexivity).
  split; [exact H1|].
  split; [exact (proj1 (verify_and_detect_agree demo_world) H1)|].
  split; [exact H2|]. split; [exact H3|].
  exact (proj2 (verify_and_detect_agree w) H2 H3).
Defined.

(** ** A failed read before an append *)

Section FailedRead.
Implicit Types (w : world) (c chain : list block).

(** [add_record_run] once more, keeping track of the fault plan at the
    time of the save. *)
Lemma add_record_run_faults pid did trt w :
  let w3 := after (add_record pid did trt) w in
  exists w1 saved w2,
    save_chain (base_chain w ++ [appended pid did trt w]) w1 = (Ok saved, w2) /\
    files w1 = files w /\ faults w1 = faults (after load_chain w) /\
    files w3 = files w2.
Proof.
  destruct (load_chain_run w) as (El & Hfs & Hck & Htk & _).
  unfold result, after. simpl.
  remember (add_record pid did trt w) as r eqn:Er.
  unfold add_record in Er. unfold bind at 1 in Er. rewrite El in Er.
  fold (after load_chain w). remember (after load_chain w) as w0 eqn:Ew0.
  clear Ew0 El. unfold appended, base_chain.
  destruct (loaded w) as [|b0 c0] eqn:Ec.
  - unfold create_genesis_block, tail_block in Er. unfold_io.
    rewrite Hck, Htk in Er.
    fold (genesis_block (clock w (ticks w))) in Er.
    match type of Er with
    | context [save_chain ?c ?wx] =>
        destruct (save_chain_run c wx) as (saved & w2 & Es & Hc2 & _)
    end.
    rewrite Es in Er. simpl in Er.
    do 3 eexists. split; [exact Es|].
    destruct saved;
      [destruct (log_operation_run
                   ("Block added - Index: " +:+ str_int (Z.of_nat 1)
                    +:+ ", Patient: " +:+ pid +:+ ", Doctor: " +:+ did) w2)
         as (w' & Elog & Hfiles & Hclock & Hfaults);
       rewrite Elog in Er|];
      subst r; simpl; auto 10.
  - unfold tail_block in Er. unfold_io.
    destruct (last (b0 :: c0)) as [tail|] eqn:El';
      [|apply last_None in El'; discriminate].
    simpl in Er. rewrite Hck, Htk in Er.
    change (length (b0 :: c0)) with (S (length c0)) in *.
    unfold record_block. rewrite El'. simpl.
    match type of Er with
    | context [save_chain ?c ?wx] =>
        destruct (save_chain_run c wx) as (saved & w2 & Es & Hc2 & _)
    end.
    rewrite Es in Er. simpl in Er.
    do 3 eexists. split; [exact Es|].
    destruct saved;
      [destruct (log_operation_run
                   ("Block added - Index: "
                    +:+ str_int (Z.of_nat (S (length c0)))
                    +:+ ", Patient: " +:+ pid +:+ ", Doctor: " +:+ did) w2)
         as (w' & Elog & Hfiles & Hclock & Hfaults);
       rewrite Elog in Er|];
      subst r; simpl; auto 10.
Qed.

Lemma failed_read_uses_the_fault w d f :
  files w !! BLOCKCHAIN_FILE = Some d -> faults w = [f] ->
  faults (after load_chain w) = [].
Proof.
  destruct w as [fs lg ck tk fl]. simpl. intros Hd ->.
  unfold load_chain. unfold_io. rewrite Hd.
  rewrite bool_decide_eq_true_2 by eauto. simpl. rewrite Hd.
  destruct f, d; reflexivity.
Qed.

End FailedRead.

(** X19.  When the one read of [load_chain] fails, [add_record] takes the
    ledger for empty: it stores a new two-block chain in the place of
    the chain that was there, which is left in the backup only. *)
Theorem failed_read_replaces_ledger
    (pid did trt : string) (w : world) (d : file_data) (f : fault) :
  files w !! BLOCKCHAIN_FILE = Some d -> faults w = [f] -> f <> Pass ->
  let w' := after (add_record pid did trt) w in
  let g := genesis_block (clock w (ticks w)) in
  stored w' = [g; record_block [g] pid did trt (clock w (S (ticks w)))] /\
  files w' !! BACKUP_FILE = Some d.
Proof.
  intros Hd Hf Hne w' g.
  assert (Hl : loaded w = []).
  { apply loaded_empty. right. right. eauto. }
  destruct (add_record_run_faults pid did trt w)
    as (w1 & sv & w2 & Es & Hf1 & Hfl1 & Hf3).
  rewrite (failed_read_uses_the_fault w d f Hd Hf) in Hfl1.
  destruct (save_chain_quiet (base_chain w ++ [appended pid did trt w]) w1 Hfl1)
    as (w2' & Es' & Hfiles & _).
  rewrite Es in Es'. injection Es' as -> <-.
  fold w' in Hf3.
  assert (Hfw : files w' =
                <[BLOCKCHAIN_FILE := JsonText (base_chain w ++ [appended pid did trt w])]>
                  (<[BACKUP_FILE := d]> (files w))).
  { rewrite Hf3, Hfiles. unfold backed_up. rewrite Hf1, Hd. reflexivity. }
  split.
  - unfold stored. rewrite Hfw, lookup_insert_eq.
    unfold appended, base_chain. rewrite Hl. reflexivity.
  - rewrite Hfw. rewrite lookup_insert_ne by discriminate.
    apply lookup_insert_eq.
Qed.

Lemma failed_read_replaces_ledger_witness :
  let w := set_faults [Deny] demo_world in
  let w' := after (add_record "P003" "D001" "Flu|Rest") w in
  let g := genesis_block (clock w (ticks w)) in
  files w !! BLOCKCHAIN_FILE = Some (JsonText demo_chain) /\
  length (stored w) = 4%nat /\
  stored w' = [g; record_block [g] "P003" "D001" "Flu|Rest" (clock w (S (ticks w)))] /\
  files w' !! BACKUP_FILE = Some (JsonText demo_chain).
Proof.
  intros w w' g.
  assert (H1 : files w !! BLOCKCHAIN_FILE = Some (JsonText demo_chain))
    by (vm_compute; reflexivity).
  split; [exact H1|]. split; [vm_compute; reflexivity|].
  apply (failed_read_replaces_ledger "P003" "D001" "Flu|Rest" w
           (JsonText demo_chain) Deny H1 eq_refl).
  discriminate.
Defined.

(** ** More on get_recent_records *)

(** X20.  For a count that is zero or negative the test [len(chain) >= count]
    holds and the slice [chain[-count:]] starts at [-count]:
    [get_recent_records(-k)] returns the chain without its first [k]
    blocks. *)
Theorem get_recent_records_nonpositive (k : nat) (w : world) :
  result (get_recent_records (- Z.of_nat k)) w = Ok (drop k (loaded w)).
Proof.
  rewrite get_recent_records_result. f_equal.
  destruct (Z.geb_spec (Z.of_nat (length (loaded w))) (- Z.of_nat k))
    as [_|?]; [|lia].
  unfold slice_from. rewrite Z.opp_involutive.
  destruct (Z.ltb_spec (Z.of_nat k) 0) as [?|_]; [lia|].
  destruct (Nat.le_gt_cases k (length (loaded w))) as [Hle|Hgt].
  - rewrite Z.min_l by lia. by rewrite Nat2Z.id.
  - rewrite Z.min_r by lia. rewrite Nat2Z.id.
    rewrite !drop_ge by lia. reflexivity.
Qed.

Lemma get_recent_records_positive_witness :
  (1 <= 2)%nat /\
  result (get_recent_records (Z.of_nat 2)) demo_world =
    Ok (last_blocks 2 (loaded demo_world)).
Proof.
  split; [lia|]. apply (get_recent_records_positive 2 demo_world). lia.
Defined.

(** ** The functions that only read *)

Section ReadOnly.
Implicit Types (w : world).

Lemma keeps_artifacts_ret {A} (a : A) : keeps_artifacts (ret a).
Proof. intros w. reflexivity. Qed.

Lemma keeps_log_ret {A} (a : A) : keeps_log (ret a).
Proof. intros w. reflexivity. Qed.

Lemma keeps_artifacts_bind {A B} (m : IO A) (k : A -> IO B) :
  keeps_artifacts m -> (forall a, keeps_artifacts (k a)) ->
  keeps_artifacts (bind m k).
Proof.
  intros Hm Hk w. specialize (Hm w). unfold after, bind in *.
  destruct (m w) as [[a|e] w1]; simpl in *.
  - rewrite <- Hm. apply Hk.
  - exact Hm.
Qed.

Lemma keeps_log_bind {A B} (m : IO A) (k : A -> IO B) :
  keeps_log m -> (forall a, keeps_log (k a)) -> keeps_log (bind m k).
Proof.
  intros Hm Hk w. specialize (Hm w). unfold after, bind in *.
  destruct (m w) as [[a|e] w1]; simpl in *.
  - rewrite <- Hm. apply Hk.
  - exact Hm.
Qed.

Lemma keeps_artifacts_load_chain : keeps_artifacts load_chain.
Proof. intros w. apply load_chain_run. Qed.

Lemma keeps_log_load_chain : keeps_log load_chain.
Proof. intros w. apply load_chain_run. Qed.

(** A query that loads the chain and computes its answer from it. *)
Lemma load_then_ret_writes_nothing {A} (f : list block -> A) :
  writes_nothing (chain <- load_chain ;; ret (f chain)).
Proof.
  split.
  - apply keeps_artifacts_bind; [apply keeps_artifacts_load_chain|].
    intros; apply keeps_artifacts_ret.
  - apply keeps_log_bind; [apply keeps_log_load_chain|].
    intros; apply keeps_log_ret.
Qed.

Lemma keeps_artifacts_log_operation msg : keeps_artifacts (log_operation msg).
Proof.
  intros w. destruct (log_operation_run msg w) as (w' & E & Hfs & _).
  unfold after. rewrite E. exact Hfs.
Qed.

Lemma keeps_artifacts_exists path : keeps_artifacts (exists_file path).
Proof. intros w. reflexivity. Qed.

Lemma keeps_artifacts_getsize path : keeps_artifacts (getsize path).
Proof.
  intros [fs lg ck tk fl]. unfold after, getsize, next_fault. simpl.
  destruct fl as [|[| |s] fl]; simpl; destruct (fs !! path); reflexivity.
Qed.

Lemma keeps_artifacts_verify_chain : keeps_artifacts verify_chain.
Proof.
  apply keeps_artifacts_bind; [apply keeps_artifacts_load_chain|].
  intros chain. destruct (check_chain chain); try apply keeps_artifacts_ret.
  apply keeps_artifacts_bind; [apply keeps_artifacts_log_operation|].
  intros _. apply keeps_artifacts_ret.
Qed.

Lemma keeps_artifacts_get_chain_stats : keeps_artifacts get_chain_stats.
Proof.
  apply keeps_artifacts_bind; [apply keeps_artifacts_load_chain|].
  intros [|b chain]; [apply keeps_artifacts_ret|].
  destruct (fold_left collect_ids (b :: chain) (∅, ∅)) as [P D].
  apply keeps_artifacts_bind; [apply keeps_artifacts_verify_chain|]. intros valid.
  apply keeps_artifacts_bind; [apply keeps_artifacts_exists|]. intros present.
  apply keeps_artifacts_bind; [|intros; apply keeps_artifacts_ret].
  destruct present; [|apply keeps_artifacts_ret].
  apply keeps_artifacts_bind; [apply keeps_artifacts_getsize|].
  intros; apply keeps_artifacts_ret.
Qed.

(** The log after [verify_chain]: the line of the verdict "all valid"
    and nothing else. *)
Lemma verify_chain_log w :
  exists w', verify_chain w = (Ok (verdict_bool (check_chain (loaded w))), w') /\
    log w' =
      match check_chain (loaded w) with
      | All_valid =>
          match faults (after load_chain w) with
          | [] | Pass :: _ =>
              log w ++ [log_entry (clock w (ticks w))
                          ("Blockchain verified - "
                           +:+ str_int (Z.of_nat (length (loaded w)))
                           +:+ " blocks OK")]
          | Deny :: _ => log w
          | Cut partial :: _ => log w ++ [partial]
          end
      | _ => log w
      end.
Proof.
  destruct (load_chain_run w) as (El & _ & Hck & Htk & Hlg).
  unfold verify_chain, bind. rewrite El.
  destruct (check_chain (loaded w));
    try (eexists; split; [reflexivity|exact Hlg]).
  match goal with
  | |- context [log_operation ?m ?w0] =>
      destruct (log_operation_effect m w0) as (w' & -> & _ & Hlog)
  end.
  eexists. split; [reflexivity|].
  rewrite Hlog, Hck, Htk, Hlg. reflexivity.
Qed.

End ReadOnly.

(** X22.  The five queries write nothing: they leave the ledger, the
    backup, every other artifact and the audit log as they found them,
    under every fault plan.  [verify_chain], and [get_chain_stats] and
    [print_chain_stats] which call it, leave every artifact as it is
    whether they return or raise, but not the audit log: [verify_chain]
    appends its line exactly when it finds a chain with blocks valid
    (one line, when the append goes through), and leaves the log alone
    on every other verdict. *)
Theorem queries_write_no_artifact :
  writes_nothing detect_tampering /\
  (forall h, writes_nothing (get_record_by_hash h)) /\
  (forall pid, writes_nothing (get_patient_records pid)) /\
  (forall did, writes_nothing (get_doctor_records did)) /\
  (forall count, writes_nothing (get_recent_records count)) /\
  keeps_artifacts verify_chain /\
  keeps_artifacts get_chain_stats /\
  keeps_artifacts print_chain_stats /\
  (forall w, check_chain (loaded w) <> All_valid ->
             log (after verify_chain w) = log w) /\
  (forall w, check_chain (loaded w) = All_valid -> faults w = [] ->
             log (after verify_chain w) =
             log w ++ [log_entry (clock w (ticks w))
                         ("Blockchain verified - "
                          +:+ str_int (Z.of_nat (length (loaded w)))
                          +:+ " blocks OK")]).
Proof.
  split; [apply (load_then_ret_writes_nothing detect_blocks)|].
  split; [intros h; apply (load_then_ret_writes_nothing (first_with_hash h))|].
  split; [intros pid;
          apply (load_then_ret_writes_nothing
                   (filter (fun blk => patient_id blk = pid)))|].
  split; [intros did;
          apply (load_then_ret_writes_nothing
                   (filter (fun blk => doctor_id blk = did)))|].
  split; [intros count;
          apply (load_then_ret_writes_nothing
                   (fun chain => if (Z.of_nat (length chain) >=? count)%Z
                                 then slice_from (- count) chain else chain))|].
  split; [apply keeps_artifacts_verify_chain|].
  split; [apply keeps_artifacts_get_chain_stats|].
  split.
  { apply keeps_artifacts_bind; [apply keeps_artifacts_get_chain_stats|].
    intros st. destruct (chain_size_kb st); apply keeps_artifacts_ret. }
  split.
  - intros w Hv. destruct (verify_chain_log w) as (w' & E & Hlog).
    unfold after. rewrite E. simpl. rewrite Hlog.
    destruct (check_chain (loaded w)); congruence.
  - intros w Hv Hf. destruct (verify_chain_log w) as (w' & E & Hlog).
    unfold after at 1. rewrite E. simpl. rewrite Hlog, Hv.
    destruct (load_chain_quiet w Hf) as [_ ->]. rewrite Hf. reflexivity.
Qed.

(** On the demo ledger [verify_chain] changes no artifact and adds one
    line to the audit log, which [detect_tampering] leaves alone. *)
Lemma queries_write_no_artifact_witness :
  check_chain (loaded demo_world) = All_valid /\ faults demo_world = [] /\
  files (after verify_chain demo_world) = files demo_world /\
  length (log (after verify_chain demo_world)) = S (length (log demo_world)) /\
  log (after detect_tampering demo_world) = log demo_world.
Proof.
  assert (H1 : check_chain (loaded demo_world) = All_valid)
    by (vm_compute; reflexivity).
  assert (H2 : faults demo_world = []) by (vm_compute; reflexivity).
  destruct queries_write_no_artifact
    as ([_ Hd] & _ & _ & _ & _ & Hv & _ & _ & _ & Hl).
  split; [exact H1|]. split; [exact H2|].
  split; [apply Hv|].
  split; [|apply Hd].
  rewrite (Hl demo_world H1 H2). rewrite length_app. simpl. lia.
Defined.

(** ** An error that escapes *)

Section Escape.
Implicit Types (w : world) (c chain : list block).

Lemma load_chain_pass w c fl :
  files w !! BLOCKCHAIN_FILE = Some (JsonText c) -> faults w = Pass :: fl ->
  exists w', load_chain w = (Ok c, w') /\ files w' = files w /\ faults w' = fl.
Proof.
  destruct w as [fs lg ck tk f0]. simpl. intros Hfile ->.
  unfold load_chain, bind, exists_file. simpl. rewrite Hfile.
  rewrite bool_decide_eq_true_2 by eauto. simpl.
  unfold try_except, bind, read_file, next_fault. simpl. rewrite Hfile. simpl.
  eexists. split; [reflexivity|]. split; reflexivity.
Qed.

Lemma log_operation_pass msg w fl :
  faults w = Pass :: fl ->
  exists w', log_operation msg w = (Ok tt, w') /\ files w' = files w /\
             faults w' = fl.
Proof.
  destruct w as [fs lg ck tk f0]. simpl. intros ->.
  with_strategy transparent [log_operation] unfold log_operation.
  unfold try_except, bind, time_time, append_log, next_fault. simpl.
  eexists. split; [reflexivity|]. split; reflexivity.
Qed.

End Escape.

(** X23.  [get_chain_stats] has no [try]: when the ledger holds a valid chain
    and [os.path.getsize] fails after the two reads and the log line
    went through, the [OSError] reaches the caller. *)
Theorem stats_size_error_escapes (b : block) (chain : list block) (w : world) :
  files w !! BLOCKCHAIN_FILE = Some (JsonText (b :: chain)) ->
  check_chain (b :: chain) = All_valid ->
  faults w = [Pass; Pass; Pass; Deny] ->
  result get_chain_stats w = Raise OSError.
Proof.
  intros Hfile Hv Hf.
  destruct (load_chain_pass w _ _ Hfile Hf) as (w1 & E1 & Hfs1 & Hfl1).
  rewrite <- Hfs1 in Hfile.
  destruct (load_chain_pass w1 _ _ Hfile Hfl1) as (w2 & E2 & Hfs2 & Hfl2).
  rewrite <- Hfs2 in Hfile.
  unfold result, get_chain_stats.
  rewrite (bind_ok _ _ _ _ _ E1).
  destruct (fold_left collect_ids (b :: chain) (∅, ∅)) as [P D].
  unfold verify_chain. unfold bind at 1. unfold bind at 1.
  rewrite E2, Hv. unfold bind at 1.
  destruct (log_operation_pass
              ("Blockchain verified - "
               +:+ str_int (Z.of_nat (length (b :: chain))) +:+ " blocks OK")
              w2 _ Hfl2) as (w3 & E3 & Hfs3 & Hfl3).
  rewrite E3. rewrite <- Hfs3 in Hfile.
  unfold ret at 1. unfold bind, exists_file, getsize, next_fault.
  rewrite Hfile, bool_decide_eq_true_2 by eauto. rewrite Hfl3.
  reflexivity.
Qed.

Lemma stats_size_error_escapes_witness :
  result get_chain_stats (set_faults [Pass; Pass; Pass; Deny] demo_world)
  = Raise OSError.
Proof.
  destruct demo_chain as [|b chain] eqn:E; [discriminate|].
  apply (stats_size_error_escapes b chain).
  - rewrite <- E. vm_compute. reflexivity.
  - rewrite <- E. vm_compute. reflexivity.
  - reflexivity.
Defined.

(** ** The upload filter *)

Section Upload.
Implicit Types (s stem ext : string).

Lemma has_dot_after_last_dot s :
  has_dot s = false <-> after_last_dot s = None.
Proof.
  induction s as [|c s IH]; simpl; [tauto|].
  destruct (Ascii.eqb c "."); simpl.
  - split; [discriminate|]. destruct (after_last_dot s); discriminate.
  - rewrite IH. destruct (after_last_dot s); split; congruence.
Qed.

Lemma after_last_dot_split s ext :
  after_last_dot s = Some ext <->
  exists stem, s = stem +:+ "." +:+ ext /\ has_dot ext = false.
Proof.
  split.
  - revert ext. induction s as [|c s IH]; simpl; intros ext H; [discriminate|].
    destruct (after_last_dot s) as [e|] eqn:E.
    + injection H as <-. destruct (IH e eq_refl) as (stem & -> & Hno).
      exists (String c stem). split; [reflexivity|exact Hno].
    + destruct (Ascii.eqb_spec c "."); [|discriminate].
      injection H as <-. subst c. exists "". split; [reflexivity|].
      by apply has_dot_after_last_dot.
  - intros (stem & -> & Hno). induction stem as [|c stem IH].
    + change ("" +:+ "." +:+ ext) with (String "." ext). simpl.
      apply has_dot_after_last_dot in Hno. rewrite Hno. reflexivity.
    + change (String c stem +:+ "." +:+ ext)
        with (String c (stem +:+ "." +:+ ext)).
      simpl. rewrite IH. reflexivity.
Qed.

End Upload.

(** X24.  [allowed_file] accepts exactly the names [stem.ext] in which [ext]
    has no dot and is, letter case apart, one of the five image
    extensions.  The stem is free: it may be empty and may itself end in
    another extension. *)
Theorem allowed_file_accepts (filename : string) :
  allowed_file filename = true <->
  exists stem ext, filename = stem +:+ "." +:+ ext /\ has_dot ext = false /\
                   lower ext ∈ ALLOWED_EXTENSIONS.
Proof.
  unfold allowed_file. split.
  - intros H. apply andb_true_iff in H as [_ H].
    destruct (after_last_dot filename) as [ext|] eqn:E; [|discriminate].
    apply after_last_dot_split in E as (stem & -> & Hno).
    exists stem, ext. split; [reflexivity|]. split; [exact Hno|].
    by apply bool_decide_eq_true_1 in H.
  - intros (stem & ext & Hf & Hno & Hin).
    assert (E : after_last_dot filename = Some ext)
      by (apply after_last_dot_split; eauto).
    rewrite E. apply andb_true_iff. split.
    + destruct (has_dot filename) eqn:Hd; [reflexivity|].
      apply has_dot_after_last_dot in Hd. congruence.
    + by apply bool_decide_eq_true_2.
Qed.

Example allowed_file_examples :
  allowed_file "scan.PNG" = true /\
  allowed_file "shell.php.jpg" = true /\
  allowed_file ".gif" = true /\
  allowed_file "scan.png.exe" = false /\
  allowed_file "png" = false /\
  allowed_file "scan." = false.
Proof. vm_compute. repeat split. Qed.

(** ** The audit log *)

(** X25.  [log_operation] never raises and touches no artifact: it
    reads the clock once and, when the append goes through, adds the one
    line [[date] message] to the log; a refused append is swallowed and
    the line is lost without a trace. *)
Theorem log_operation_swallows_errors (message : string) (w : world) :
  let w' := after (log_operation message) w in
  let entry := "[" +:+ t_date (clock w (ticks w)) +:+ "] " +:+ message in
  result (log_operation message) w = Ok tt /\
  files w' = files w /\ ticks w' = S (ticks w) /\
  log w' = match faults w with
           | [] | Pass :: _ => log w ++ [entry]
           | Deny :: _ => log w
           | Cut partial :: _ => log w ++ [partial]
           end.
Proof.
  destruct w as [fs lg ck tk fl].
  with_strategy transparent [log_operation] unfold log_operation.
  unfold result, after, try_except, bind, time_time, append_log, next_fault,
    ret, set_log, set_ticks, set_faults.
  simpl. destruct fl as [|[| |s] fl]; simpl; auto.
Qed.

(** ** Restoring an unchecked backup *)

(** X26.  [rollback_to_backup] copies the backup as it is, without
    parsing or verifying it: without I/O faults it returns true
    whatever the backup holds, and when the backup is not JSON the
    ledger reads as empty afterwards and [verify_chain] returns true. *)
Theorem rollback_copies_backup_unchecked (w : world) (d : file_data) :
  faults w = [] -> files w !! BACKUP_FILE = Some d ->
  let w' := after rollback_to_backup w in
  result rollback_to_backup w = Ok true /\
  files w' = <[BLOCKCHAIN_FILE := d]> (files w) /\
  (forall s, d = OtherText s ->
     loaded w' = [] /\ result verify_chain w' = Ok true).
Proof.
  intros Hf Hd w'.
  assert (E : rollback_to_backup w = (Ok true, w')).
  { subst w'. destruct w as [fs lg ck tk fl]. simpl in *. subst fl.
    unfold after, rollback_to_backup. unfold_io. rewrite Hd.
    rewrite bool_decide_eq_true_2 by eauto. simpl. rewrite Hd. simpl.
    match goal with
    | |- context [log_operation ?m ?w0] =>
        destruct (log_operation_run m w0) as (w1 & -> & _)
    end.
    reflexivity. }
  destruct (rollback_to_backup_run w w' E) as (d' & Hd' & Hfs).
  rewrite Hd in Hd'. injection Hd' as <-.
  split; [unfold result; rewrite E; reflexivity|].
  split; [exact Hfs|].
  intros s ->.
  assert (Hl : loaded w' = []).
  { apply loaded_empty. right. left. exists s.
    rewrite Hfs. apply lookup_insert_eq. }
  split; [exact Hl|]. rewrite verify_chain_result, Hl. reflexivity.
Qed.

Lemma rollback_copies_backup_unchecked_witness :
  let w := set_files (<[BACKUP_FILE := OtherText "not json"]> (files demo_world))
                     demo_world in
  let w' := after rollback_to_backup w in
  length (stored w) = 4%nat /\
  result rollback_to_backup w = Ok true /\
  files w' = <[BLOCKCHAIN_FILE := OtherText "not json"]> (files w) /\
  (forall s, OtherText "not json" = OtherText s ->
     loaded w' = [] /\ result verify_chain w' = Ok true).
Proof.
  intros w w'. split; [vm_compute; reflexivity|].
  apply (rollback_copies_backup_unchecked w (OtherText "not json")).
  - vm_compute. reflexivity.
  - vm_compute. reflexivity.
Defined.
